(** * Target resolution and runtime module composition (src/Target.cpp)

    A shallow embedding of [get_host_target], [get_target_from_environment]
    and [get_initial_module_for_target], followed by the properties of the
    target-resolution specification that are established on it.

    Conventions.
    - A C++ [int] or [uint64_t] is a [Z]; [&], [|] and [<<] are [Z.land],
      [Z.lor] and [Z.shiftl].  Every shift in the source is [1 << k] with
      [k <= 30] and every [|=] joins non-negative enumerators, so no value
      leaves its machine range and no wrap-around has to be written out.
    - [assert] is the active one of <cassert> (the build does not define
      NDEBUG): a failed assertion ends the process.  A run of a function is
      an [outcome]: the returned value, or the abort together with what the
      function had written to [std::cerr] and the text of the asserted
      expression.
    - What the processor, the build and LLVM decide is a parameter: the
      CPUID instruction, the preprocessor symbols, [sizeof(size_t)], the
      enumerators of [Target::Features] (Target.h is not part of the
      sources at hand) and the failure of [llvm::Linker::LinkModules]. *)

From Stdlib Require Import ZArith List String Ascii Bool Lia Permutation.
Import ListNotations.

Local Open Scope string_scope.
Local Open Scope list_scope.
Local Open Scope Z_scope.

(** ** Outcomes of a run *)

Inductive outcome (A : Type) : Type :=
| Returns (a : A)
| Aborts (cerr : string) (assertion : string).

Arguments Returns {A} a.
Arguments Aborts {A} cerr assertion.

Definition bind {A B : Type} (m : outcome A) (k : A -> outcome B) : outcome B :=
  match m with
  | Returns a => k a
  | Aborts cerr assertion => Aborts cerr assertion
  end.

Notation "x <- m ;; k" := (bind m (fun x => k))
  (at level 61, m at next level, right associativity).
Notation "' pat <- m ;; k" := (bind m (fun x => match x with pat => k end))
  (at level 61, pat pattern, m at next level, right associativity).

(** [assert(cond)] with the text of the asserted expression; nothing has
    been written to [std::cerr] at any of the source's assertions but the
    ones that follow a diagnostic, which use [Aborts] directly. *)
Definition assert (cond : bool) (expr : string) : outcome unit :=
  if cond then Returns tt else Aborts "" expr.

Definition returned {A : Type} (m : outcome A) : bool :=
  match m with Returns _ => true | Aborts _ _ => false end.

(** The two characters a Rocq string literal cannot hold directly. *)
Definition nl : string := String (ascii_of_nat 10) "".
Definition dquote : string := String (ascii_of_nat 34) "".
Definition quoted (s : string) : string := dquote ++ s ++ dquote.

(** [is_substring sub s]: [sub] occurs in [s]. *)
Fixpoint is_substring (sub s : string) : bool :=
  prefix sub s ||
  match s with
  | EmptyString => false
  | String _ s' => is_substring sub s'
  end.

(** ** The Target model (Target.h, as Target.cpp uses it) *)

Inductive OS : Type := OSUnknown | Linux | Windows | OSX | Android | IOS | NaCl.

Inductive Arch : Type := X86 | ARM.

(** [struct Target]: Target.h is not among the sources; the enumerators,
    the fields and the constructor [Target(os, arch, bits, features)] are
    the ones Target.cpp names. *)
Record Target : Type := mkTarget {
  os : OS;
  arch : Arch;
  bits : Z;
  features : Z
}.

Definition Arch_eqb (a b : Arch) : bool :=
  match a, b with
  | X86, X86 | ARM, ARM => true
  | _, _ => false
  end.

Definition set_os (t : Target) (o : OS) : Target :=
  mkTarget o (arch t) (bits t) (features t).
Definition set_arch (t : Target) (a : Arch) : Target :=
  mkTarget (os t) a (bits t) (features t).
Definition set_bits (t : Target) (b : Z) : Target :=
  mkTarget (os t) (arch t) b (features t).
Definition set_features (t : Target) (f : Z) : Target :=
  mkTarget (os t) (arch t) (bits t) f.

(** The enumerators of [Target::Features].  Their values are declared in
    Target.h, which is not among the sources: they are parameters of the
    development. *)
Class Features : Type := {
  SSE41 : Z;
  AVX : Z;
  AVX2 : Z;
  CUDA : Z;
  OpenCL : Z;
  GPUDebug : Z
}.

(** C++'s [features & flag] read as a condition. *)
Definition has_feature (fs flag : Z) : bool := negb (Z.land fs flag =? 0).

Definition all_flags `{Features} : list Z :=
  [SSE41; AVX; AVX2; CUDA; OpenCL; GPUDebug].

Fixpoint pairwise_disjoint (l : list Z) : bool :=
  match l with
  | [] => true
  | f :: l' => forallb (fun g => Z.land f g =? 0) l' && pairwise_disjoint l'
  end.

(** What the specification's data model asks of the enumerators, "a set of
    independent capability flags": every flag has a bit, no two share one. *)
Definition independent_flags `{Features} : bool :=
  forallb (fun f => negb (f =? 0)) all_flags && pairwise_disjoint all_flags.

(** Modelled from the spec: the values of [Target::Features] in Target.h,
    which is missing; the specification only says that the six flags are
    independent, and one bit each in the order it lists them is the
    simplest such assignment.  Used only to instantiate the general
    statements. *)
Definition one_bit_each : Features :=
  {| SSE41 := 1; AVX := 2; AVX2 := 4; CUDA := 8; OpenCL := 16; GPUDebug := 32 |}.

(** ** The capability prober: [cpuid] and [get_host_target] *)

(** [int info[4]] as filled by the CPUID instruction: registers A, B, C, D. *)
Record cpu_info : Type := mkInfo {
  eax : Z;
  ebx : Z;
  ecx : Z;
  edx : Z
}.

(** [info[i]] *)
Definition at_index (info : cpu_info) (i : nat) : Z :=
  match i with
  | 0%nat => eax info
  | 1%nat => ebx info
  | 2%nat => ecx info
  | _ => edx info
  end.

Notation "info .[ i ]" := (at_index info i%nat) (at level 1, format "info .[ i ]").

(** The machine and the build the compiler runs on. *)
Record Host : Type := mkHost {
  defined_linux : bool;       (* __linux__ *)
  defined_MSC_VER : bool;     (* _MSC_VER *)
  defined_APPLE : bool;       (* __APPLE__ *)
  defined_arm : bool;         (* __arm__ *)
  sizeof_size_t : Z;
  cpuid : Z -> Z -> cpu_info; (* infoType (leaf), extra (sub-leaf) *)
  HL_TARGET : option string   (* getenv("HL_TARGET") *)
}.

(** [x & (1 << k)] converted to [bool]. *)
Definition bit_set (x k : Z) : bool := negb (Z.land x (Z.shiftl 1 k) =? 0).

Section WithFeatures.
Context `{Features}.

Definition get_host_target (h : Host) : outcome Target :=
  let os := OSUnknown in
  let os := if defined_linux h then Linux else os in
  let os := if defined_MSC_VER h then Windows else os in
  let os := if defined_APPLE h then OSX else os in
  let use_64_bits := sizeof_size_t h =? 8 in
  let bits := if use_64_bits then 64 else 32 in
  if defined_arm h then
    Returns (mkTarget os ARM bits 0)
  else
    let arch := X86 in
    let info := cpuid h 1 0 in
    let have_sse41 := bit_set info.[2] 19 in
    let have_sse2 := bit_set info.[3] 26 in
    let have_avx := bit_set info.[2] 28 in
    let have_f16 := bit_set info.[2] 29 in
    let have_rdrand := bit_set info.[2] 30 in
    _ <- assert have_sse2
           ("have_sse2 && " ++ quoted "The x86 backend assumes at least sse2 support") ;;
    let features := 0 in
    let features := if have_sse41 then Z.lor features SSE41 else features in
    let features := if have_avx then Z.lor features AVX else features in
    let features :=
      if use_64_bits && have_avx && have_f16 && have_rdrand then
        let info2 := cpuid h 7 0 in
        let have_avx2 := bit_set info.[2] 5 in
        if have_avx2 then Z.lor features AVX2 else features
      else features in
    Returns (mkTarget os arch bits features).

(** ** The target resolver: [get_target_from_environment] *)

(** [std::string::find(char)]: the first position of [c], [None] for [npos]. *)
Fixpoint find (c : ascii) (s : string) : option nat :=
  match s with
  | EmptyString => None
  | String a s' => if Ascii.eqb a c then Some 0%nat else option_map S (find c s')
  end.

(** [s.substr(pos, len)] and [s.substr(pos)]; the source calls them with
    [pos <= s.size()] only, where neither throws. *)
Definition substr (s : string) (pos len : nat) : string := substring pos len s.
Definition substr_from (s : string) (pos : nat) : string :=
  substring pos (String.length s - pos) s.

Definition dash : ascii := ascii_of_nat 45.

(** The [while ((first_dash = rest.find('-')) != npos)] loop.  Every turn
    shortens [rest], so [S (length target)] turns are never used up
    ([tokenize_segments] below); the state is [(rest, tokens)]. *)
Fixpoint split_loop (fuel : nat) (rest : string) (tokens : list string)
  : string * list string :=
  match fuel with
  | O => (rest, tokens)
  | S fuel' =>
      match find dash rest with
      | Some first_dash =>
          split_loop fuel'
            (substr_from rest (first_dash + 1))
            (tokens ++ [substr rest 0 first_dash])
      | None => (rest, tokens)
      end
  end.

Definition tokenize (target : string) : list string :=
  let '(rest, tokens) := split_loop (S (String.length target)) target [] in
  tokens ++ [rest].

(** The locals of the token loop that outlive one turn. *)
Record parse_state : Type := mkState {
  st_t : Target;
  os_specified : bool;
  arch_specified : bool;
  bits_specified : bool
}.

Definition did_not_understand (target : string) : string :=
  "Did not understand HL_TARGET=" ++ target ++ nl
  ++ "Expected format is arch-os-feature1-feature2-... "
  ++ "Where arch is host, x86-32, x86-64, arm-32, arm-64, "
  ++ "and os is host, linux, windows, osx, nacl, ios, android. "
  ++ "Features include sse41, avx, avx2, cuda, and opencl." ++ nl.

Definition os_twice : string :=
  "!os_specified && " ++ quoted "Target string specifies OS twice".
Definition arch_twice : string :=
  "!arch_specified && " ++ quoted "Target string specifies architecture twice".
Definition bits_twice : string :=
  "!bits_specified && " ++ quoted "Target string specifies bits twice".

(** The [if]/[else if] chain of one turn: the updated [t] and
    [(is_arch, is_os, is_bits)]. *)
Definition match_token (target : string) (t : Target) (tok : string)
  : outcome (Target * (bool * bool * bool)) :=
  if String.eqb tok "x86" then Returns (set_arch t X86, (true, false, false))
  else if String.eqb tok "arm" then Returns (set_arch t ARM, (true, false, false))
  else if String.eqb tok "32" then Returns (set_bits t 32, (false, false, true))
  else if String.eqb tok "64" then Returns (set_bits t 64, (false, false, true))
  else if String.eqb tok "linux" then Returns (set_os t Linux, (false, true, false))
  else if String.eqb tok "windows" then Returns (set_os t Windows, (false, true, false))
  else if String.eqb tok "nacl" then Returns (set_os t NaCl, (false, true, false))
  else if String.eqb tok "osx" then Returns (set_os t OSX, (false, true, false))
  else if String.eqb tok "android" then Returns (set_os t Android, (false, true, false))
  else if String.eqb tok "ios" then Returns (set_os t IOS, (false, true, false))
  else if String.eqb tok "sse41" then
    Returns (set_features t (Z.lor (features t) SSE41), (false, false, false))
  else if String.eqb tok "avx" then
    Returns (set_features t (Z.lor (features t) (Z.lor SSE41 AVX)), (false, false, false))
  else if String.eqb tok "avx2" then
    Returns (set_features t (Z.lor (features t) (Z.lor (Z.lor SSE41 AVX) AVX2)),
             (false, false, false))
  else if String.eqb tok "cuda" || String.eqb tok "ptx" then
    Returns (set_features t (Z.lor (features t) CUDA), (false, false, false))
  else if String.eqb tok "opencl" then
    Returns (set_features t (Z.lor (features t) OpenCL), (false, false, false))
  else if String.eqb tok "gpu_debug" then
    Returns (set_features t (Z.lor (features t) GPUDebug), (false, false, false))
  else Aborts (did_not_understand target) "false".

(** One turn of [for (size_t i = 0; i < tokens.size(); i++)]. *)
Definition token_step (target : string) (st : parse_state) (tok : string)
  : outcome parse_state :=
  '(t, (is_arch, is_os, is_bits)) <- match_token target (st_t st) tok ;;
  os_specified <-
    (if is_os then
       _ <- assert (negb (os_specified st)) os_twice ;; Returns true
     else Returns (os_specified st)) ;;
  arch_specified <-
    (if is_arch then
       _ <- assert (negb (arch_specified st)) arch_twice ;; Returns true
     else Returns (arch_specified st)) ;;
  bits_specified <-
    (if is_bits then
       _ <- assert (negb (bits_specified st)) bits_twice ;; Returns true
     else Returns (bits_specified st)) ;;
  Returns (mkState t os_specified arch_specified bits_specified).

Fixpoint token_loop (target : string) (st : parse_state) (tokens : list string)
  : outcome parse_state :=
  match tokens with
  | [] => Returns st
  | tok :: tokens' =>
      st' <- token_step target st tok ;;
      token_loop target st' tokens'
  end.

(** [get_target_from_environment] from [t.features = 0] to [return t]: the
    host target [t] overridden by the value [target] of HL_TARGET. *)
Definition target_from_string (t : Target) (target : string) : outcome Target :=
  let t := set_features t 0 in
  let tokens := tokenize target in
  st <- token_loop target (mkState t false false false) tokens ;;
  Returns (st_t st).

Definition get_target_from_environment (h : Host) : outcome Target :=
  t <- get_host_target h ;;
  match HL_TARGET h with
  | Some target => target_from_string t target
  | None => Returns t
  end.

(** ** The runtime module registry and composer:
       [get_initial_module_for_target] *)

(** RUNTIME_CPP_COMPONENTS, as declared by [DECLARE_CPP_INITMOD]. *)
Inductive cpp_component : Type :=
| android_clock | android_host_cpu_count | android_io | ios_io
| cuda | cuda_debug | fake_thread_pool | gcd_thread_pool
| linux_clock | linux_host_cpu_count | nogpu | opencl | opencl_debug
| osx_host_cpu_count | osx_io | posix_allocator | posix_clock
| posix_error_handler | posix_io | posix_math | posix_thread_pool
| tracing | write_debug_image.

(** RUNTIME_LL_COMPONENTS, as declared by [DECLARE_LL_INITMOD]. *)
Inductive ll_component : Type :=
| arm_ll | posix_math_ll | ptx_dev_ll | x86_avx_ll | x86_ll | x86_sse41_ll.

(** The embedded bitcode buffers [halide_internal_initmod_<mod>]: a C++
    component has a [_32] and a [_64] buffer and [get_initmod_<mod>(c,
    bits_64)] picks between them; a low-level component has one. *)
Inductive initmod : Type :=
| cpp_initmod (component : cpp_component) (bits_64 : bool)
| ll_initmod (component : ll_component).

(** An [llvm::Module] is known by the initmods whose code it holds, in the
    order they came in. *)
Definition llvm_Module : Type := list initmod.

(** [get_initmod_<mod>]: the module parsed from the buffer. *)
Definition get_initmod (m : initmod) : llvm_Module := [m].

(** The [modules] vector when the linking loop is reached. *)
Definition selected_modules (t : Target) : list initmod :=
  let bits_64 := bits t =? 64 in
  let modules := [] in
  let modules :=
    match os t with
    | Linux =>
        modules ++ [cpp_initmod linux_clock bits_64; cpp_initmod posix_io bits_64;
                    cpp_initmod linux_host_cpu_count bits_64;
                    cpp_initmod posix_thread_pool bits_64]
    | OSX =>
        modules ++ [cpp_initmod posix_clock bits_64; cpp_initmod osx_io bits_64;
                    cpp_initmod gcd_thread_pool bits_64]
    | Android =>
        modules ++ [cpp_initmod android_clock bits_64; cpp_initmod android_io bits_64;
                    cpp_initmod android_host_cpu_count bits_64;
                    cpp_initmod posix_thread_pool bits_64]
    | Windows =>
        modules ++ [cpp_initmod posix_clock bits_64; cpp_initmod posix_io bits_64;
                    cpp_initmod fake_thread_pool bits_64]
    | IOS =>
        modules ++ [cpp_initmod posix_clock bits_64; cpp_initmod ios_io bits_64;
                    cpp_initmod gcd_thread_pool bits_64]
    | NaCl =>
        modules ++ [cpp_initmod posix_clock bits_64; cpp_initmod posix_io bits_64;
                    cpp_initmod linux_host_cpu_count bits_64;
                    cpp_initmod posix_thread_pool bits_64]
    | OSUnknown => modules
    end in
  let modules :=
    modules ++ [cpp_initmod posix_math bits_64; ll_initmod posix_math_ll;
                cpp_initmod tracing bits_64; cpp_initmod write_debug_image bits_64;
                cpp_initmod posix_allocator bits_64;
                cpp_initmod posix_error_handler bits_64] in
  let modules :=
    if Arch_eqb (arch t) X86 then modules ++ [ll_initmod x86_ll] else modules in
  let modules :=
    if has_feature (features t) SSE41 then modules ++ [ll_initmod x86_sse41_ll]
    else modules in
  let modules :=
    if has_feature (features t) AVX then modules ++ [ll_initmod x86_avx_ll]
    else modules in
  let modules :=
    if has_feature (features t) CUDA then
      if has_feature (features t) GPUDebug then modules ++ [cpp_initmod cuda_debug bits_64]
      else modules ++ [cpp_initmod cuda bits_64]
    else if has_feature (features t) OpenCL then
      if has_feature (features t) GPUDebug then modules ++ [cpp_initmod opencl_debug bits_64]
      else modules ++ [cpp_initmod opencl bits_64]
    else modules ++ [cpp_initmod nogpu bits_64] in
  modules.

Section Linking.

(** [llvm::Linker::LinkModules(dest, src, DestroySource, &err_msg)] is
    LLVM's: whether it fails, and with which [err_msg], is a parameter.
    When it succeeds [dest] has taken the contents of [src]. *)
Variable link_fails : llvm_Module -> llvm_Module -> option string.

(** [for (size_t i = 1; i < modules.size(); i++)], with [dest] for
    [modules[0]] and [srcs] for the modules from index [i] on. *)
Fixpoint link_loop (dest : llvm_Module) (srcs : list llvm_Module)
  : outcome llvm_Module :=
  match srcs with
  | [] => Returns dest
  | src :: srcs' =>
      match link_fails dest src with
      | Some err_msg =>
          Aborts ("Failure linking initial modules: " ++ err_msg ++ nl) "false"
      | None => link_loop (dest ++ src) srcs'
      end
  end.

Definition get_initial_module_for_target (t : Target) : outcome llvm_Module :=
  _ <- assert ((bits t =? 32) || (bits t =? 64)) "t.bits == 32 || t.bits == 64" ;;
  match map get_initmod (selected_modules t) with
  | modules_0 :: srcs => link_loop modules_0 srcs
  | [] => Aborts "" "modules[0]" (* not reached: [selected_modules_not_nil] *)
  end.

End Linking.

End WithFeatures.

(** * The vocabulary of the statements *)

(** ** Hosts and targets used as instances *)

(** A 64-bit Linux x86 host whose first CPUID query reports SSE2, AVX,
    half-precision floats and hardware random numbers. *)
Definition avx_host (leaf1_ecx_extra : Z) (leaf7 : cpu_info) : Host :=
  mkHost true false false false 8
    (fun infoType extra =>
       if infoType =? 1 then
         mkInfo 0 0 (Z.shiftl 1 28 + Z.shiftl 1 29 + Z.shiftl 1 30 + leaf1_ecx_extra)
                (Z.shiftl 1 26)
       else if infoType =? 7 then leaf7
       else mkInfo 0 0 0 0)
    None.

(** ** Module composer *)

(** The initmods that dispatch to an accelerator, or stand in for one. *)
Definition is_accelerator (m : initmod) : bool :=
  match m with
  | cpp_initmod (cuda | cuda_debug | opencl | opencl_debug | nogpu) _ => true
  | _ => false
  end.

(** The accelerator choice in the specification's words: CUDA if CUDA is
    set, else OpenCL if OpenCL is set, else no GPU; the debug variant of
    the first two exactly when GPUDebug is set. *)
Definition accelerator_choice `{Features} (fs : Z) : cpp_component :=
  if has_feature fs CUDA then
    (if has_feature fs GPUDebug then cuda_debug else cuda)
  else if has_feature fs OpenCL then
    (if has_feature fs GPUDebug then opencl_debug else opencl)
  else nogpu.

(** Linux, x86, 64 bits, no feature. *)
Definition linux_x86_64 : Target := mkTarget Linux X86 64 0.

Definition linux_x86_64_modules : list initmod :=
  [cpp_initmod linux_clock true; cpp_initmod posix_io true;
   cpp_initmod linux_host_cpu_count true; cpp_initmod posix_thread_pool true;
   cpp_initmod posix_math true; ll_initmod posix_math_ll;
   cpp_initmod tracing true; cpp_initmod write_debug_image true;
   cpp_initmod posix_allocator true; cpp_initmod posix_error_handler true;
   ll_initmod x86_ll;
   cpp_initmod nogpu true].

(** ** Override strings *)

Inductive category : Type := Architecture | OperatingSystem | BitWidth.

Definition category_eqb (a b : category) : bool :=
  match a, b with
  | Architecture, Architecture | OperatingSystem, OperatingSystem
  | BitWidth, BitWidth => true
  | _, _ => false
  end.

Definition arch_tokens : list string := ["x86"; "arm"].
Definition bits_tokens : list string := ["32"; "64"].
Definition os_tokens : list string :=
  ["linux"; "windows"; "nacl"; "osx"; "android"; "ios"].
Definition feature_tokens : list string :=
  ["sse41"; "avx"; "avx2"; "cuda"; "ptx"; "opencl"; "gpu_debug"].

(** The recognized token table. *)
Definition token_table : list string :=
  arch_tokens ++ bits_tokens ++ os_tokens ++ feature_tokens.

Definition mem (tok : string) (l : list string) : bool :=
  existsb (String.eqb tok) l.

Definition recognised (tok : string) : bool := mem tok token_table.

Definition category_of (tok : string) : option category :=
  if mem tok arch_tokens then Some Architecture
  else if mem tok os_tokens then Some OperatingSystem
  else if mem tok bits_tokens then Some BitWidth
  else None.

(** The categories of the arch, OS and bits tokens of a list, in order. *)
Definition categories (tokens : list string) : list category :=
  flat_map (fun tok => match category_of tok with
                       | Some c => [c]
                       | None => []
                       end) tokens.

(** How many tokens of category [c] a list has. *)
Definition count_category (c : category) (tokens : list string) : nat :=
  List.length (filter (category_eqb c) (categories tokens)).

(** No category occurs twice. *)
Fixpoint distinct (cs : list category) : bool :=
  match cs with
  | [] => true
  | c :: cs' => negb (existsb (category_eqb c) cs') && distinct cs'
  end.

Fixpoint take_while {A : Type} (p : A -> bool) (l : list A) : list A :=
  match l with
  | [] => []
  | x :: l' => if p x then x :: take_while p l' else []
  end.

(** The tokens in front of the first unrecognised one (all of them when
    every token is recognised). *)
Definition recognised_prefix (tokens : list string) : list string :=
  take_while recognised tokens.

(** The assertion that guards a category. *)
Definition twice (c : category) : string :=
  match c with
  | Architecture => arch_twice
  | OperatingSystem => os_twice
  | BitWidth => bits_twice
  end.

Definition specified (st : parse_state) (c : category) : bool :=
  match c with
  | Architecture => arch_specified st
  | OperatingSystem => os_specified st
  | BitWidth => bits_specified st
  end.

(** The hyphen-separated segments of a string, by recursion on it. *)
Fixpoint segments (s : string) : list string :=
  match s with
  | EmptyString => [""]
  | String c s' =>
      if Ascii.eqb c dash then "" :: segments s'
      else match segments s' with
           | seg :: segs => String c seg :: segs
           | [] => [String c ""]
           end
  end.


(** ** What a token stands for *)

(** A token without a hyphen. *)
Definition hyphen_free (tok : string) : Prop := find dash tok = None.

(** The tokens of each category and the value they give the field, and
    the flags a feature token joins to [features] (0 for any other token). *)
Definition arch_of_token (tok : string) : option Arch :=
  if String.eqb tok "x86" then Some X86
  else if String.eqb tok "arm" then Some ARM
  else None.

Definition bits_of_token (tok : string) : option Z :=
  if String.eqb tok "32" then Some 32
  else if String.eqb tok "64" then Some 64
  else None.

Definition os_of_token (tok : string) : option OS :=
  if String.eqb tok "linux" then Some Linux
  else if String.eqb tok "windows" then Some Windows
  else if String.eqb tok "nacl" then Some NaCl
  else if String.eqb tok "osx" then Some OSX
  else if String.eqb tok "android" then Some Android
  else if String.eqb tok "ios" then Some IOS
  else None.

Definition features_of_token `{Features} (tok : string) : Z :=
  if String.eqb tok "sse41" then SSE41
  else if String.eqb tok "avx" then Z.lor SSE41 AVX
  else if String.eqb tok "avx2" then Z.lor (Z.lor SSE41 AVX) AVX2
  else if String.eqb tok "cuda" || String.eqb tok "ptx" then CUDA
  else if String.eqb tok "opencl" then OpenCL
  else if String.eqb tok "gpu_debug" then GPUDebug
  else 0.

(** A Target after one accepted token. *)
Definition apply_token `{Features} (t : Target) (tok : string) : Target :=
  mkTarget
    (match os_of_token tok with Some o => o | None => os t end)
    (match arch_of_token tok with Some a => a | None => arch t end)
    (match bits_of_token tok with Some b => b | None => bits t end)
    (Z.lor (features t) (features_of_token tok)).

(** The flags of all the tokens of a list. *)
Definition join_features `{Features} (tokens : list string) : Z :=
  fold_right (fun tok fs => Z.lor (features_of_token tok) fs) 0 tokens.


(** ** The parts of the [modules] vector *)

(** The modules pushed for an OS. *)
Definition os_bundle (o : OS) (bits_64 : bool) : list initmod :=
  match o with
  | Linux =>
      [cpp_initmod linux_clock bits_64; cpp_initmod posix_io bits_64;
       cpp_initmod linux_host_cpu_count bits_64; cpp_initmod posix_thread_pool bits_64]
  | OSX =>
      [cpp_initmod posix_clock bits_64; cpp_initmod osx_io bits_64;
       cpp_initmod gcd_thread_pool bits_64]
  | Android =>
      [cpp_initmod android_clock bits_64; cpp_initmod android_io bits_64;
       cpp_initmod android_host_cpu_count bits_64;
       cpp_initmod posix_thread_pool bits_64]
  | Windows =>
      [cpp_initmod posix_clock bits_64; cpp_initmod posix_io bits_64;
       cpp_initmod fake_thread_pool bits_64]
  | IOS =>
      [cpp_initmod posix_clock bits_64; cpp_initmod ios_io bits_64;
       cpp_initmod gcd_thread_pool bits_64]
  | NaCl =>
      [cpp_initmod posix_clock bits_64; cpp_initmod posix_io bits_64;
       cpp_initmod linux_host_cpu_count bits_64; cpp_initmod posix_thread_pool bits_64]
  | OSUnknown => []
  end.

(** The modules that are always used. *)
Definition always_included (bits_64 : bool) : list initmod :=
  [cpp_initmod posix_math bits_64; ll_initmod posix_math_ll;
   cpp_initmod tracing bits_64; cpp_initmod write_debug_image bits_64;
   cpp_initmod posix_allocator bits_64; cpp_initmod posix_error_handler bits_64].

(** The kinds of OS-dependent modules, by their names. *)
Definition is_clock (m : initmod) : bool :=
  match m with
  | cpp_initmod (linux_clock | posix_clock | android_clock) _ => true
  | _ => false
  end.

Definition is_io (m : initmod) : bool :=
  match m with
  | cpp_initmod (posix_io | osx_io | android_io | ios_io) _ => true
  | _ => false
  end.

Definition is_thread_pool (m : initmod) : bool :=
  match m with
  | cpp_initmod (posix_thread_pool | gcd_thread_pool | fake_thread_pool) _ => true
  | _ => false
  end.

Definition is_host_cpu_count (m : initmod) : bool :=
  match m with
  | cpp_initmod (linux_host_cpu_count | android_host_cpu_count
                 | osx_host_cpu_count) _ => true
  | _ => false
  end.

(** A number for each buffer, to tell initmods apart by computation. *)
Definition cpp_component_index (c : cpp_component) : nat :=
  match c with
  | android_clock => 0 | android_host_cpu_count => 1 | android_io => 2
  | ios_io => 3 | cuda => 4 | cuda_debug => 5 | fake_thread_pool => 6
  | gcd_thread_pool => 7 | linux_clock => 8 | linux_host_cpu_count => 9
  | nogpu => 10 | opencl => 11 | opencl_debug => 12 | osx_host_cpu_count => 13
  | osx_io => 14 | posix_allocator => 15 | posix_clock => 16
  | posix_error_handler => 17 | posix_io => 18 | posix_math => 19
  | posix_thread_pool => 20 | tracing => 21 | write_debug_image => 22
  end%nat.

Definition ll_component_index (c : ll_component) : nat :=
  match c with
  | arm_ll => 0 | posix_math_ll => 1 | ptx_dev_ll => 2
  | x86_avx_ll => 3 | x86_ll => 4 | x86_sse41_ll => 5
  end%nat.

Definition initmod_index (m : initmod) : nat :=
  match m with
  | cpp_initmod c bits_64 => 2 * cpp_component_index c + (if bits_64 then 1 else 0)
  | ll_initmod c => 46 + ll_component_index c
  end%nat.

Fixpoint all_different (l : list nat) : bool :=
  match l with
  | [] => true
  | x :: l' => negb (existsb (Nat.eqb x) l') && all_different l'
  end.

(** * Properties *)

(** ** Capability prober *)

Lemma bit_set_testbit (x k : Z) : 0 <= k -> bit_set x k = Z.testbit x k.
Proof.
  intros Hk. unfold bit_set. rewrite Z.shiftl_1_l.
  destruct (Z.testbit x k) eqn:E.
  - destruct (Z.eqb_spec (Z.land x (2 ^ k)) 0) as [H0 | ]; [ | reflexivity].
    assert (Hb : Z.testbit (Z.land x (2 ^ k)) k = true)
      by (rewrite Z.land_spec, E, Z.pow2_bits_true; auto).
    rewrite H0, Z.bits_0 in Hb. discriminate.
  - replace (Z.land x (2 ^ k)) with 0; [reflexivity | ].
    symmetry. apply Z.bits_inj'. intros n Hn.
    rewrite Z.land_spec, Z.bits_0.
    destruct (Z.eq_dec n k) as [-> | Hne].
    + rewrite E. reflexivity.
    + rewrite Z.pow2_bits_false by auto. apply andb_false_r.
Qed.

Section ProberProperties.
Context `{Features}.

(** C1 (the code at two hosts the claim decides differently).  On an
    x86-64 host whose first query reports AVX, half floats and hardware
    random numbers, [get_host_target] takes AVX2 from bit 5 of register C
    of the FIRST query: with that bit clear in the first query and set in
    the second (leaf 7) the returned features are AVX alone, and with that
    bit set in the first query and every register of the second zero the
    returned features include AVX2. *)
Theorem get_host_target_avx2_from_first_query :
  bit_set (ecx (cpuid (avx_host 0 (mkInfo 0 0 (Z.shiftl 1 5) 0)) 7 0)) 5 = true /\
  get_host_target (avx_host 0 (mkInfo 0 0 (Z.shiftl 1 5) 0))
    = Returns (mkTarget Linux X86 64 AVX) /\
  bit_set (ecx (cpuid (avx_host (Z.shiftl 1 5) (mkInfo 0 0 0 0)) 7 0)) 5 = false /\
  get_host_target (avx_host (Z.shiftl 1 5) (mkInfo 0 0 0 0))
    = Returns (mkTarget Linux X86 64 (Z.lor AVX AVX2)).
Proof.
  repeat split; reflexivity.
Qed.

(** The second query never reaches the result: two hosts that differ in
    the CPUID instruction only, and agree on leaf 1, get the same target. *)
Lemma get_host_target_ignores_leaf_7 (h : Host) (cpuid' : Z -> Z -> cpu_info) :
  cpuid' 1 0 = cpuid h 1 0 ->
  get_host_target
    (mkHost (defined_linux h) (defined_MSC_VER h) (defined_APPLE h) (defined_arm h)
            (sizeof_size_t h) cpuid' (HL_TARGET h))
  = get_host_target h.
Proof.
  intros E. unfold get_host_target. simpl. rewrite E. reflexivity.
Qed.

(** C9.  On x86 (the build does not define [__arm__]), when bit 26 of
    register D of the leaf-1 query is clear, [get_host_target] returns no
    Target: it ends the process on the assertion that names the missing
    SSE2 support. *)
Theorem get_host_target_requires_sse2 (h : Host) :
  defined_arm h = false ->
  Z.testbit (edx (cpuid h 1 0)) 26 = false ->
  get_host_target h =
    Aborts "" ("have_sse2 && " ++ quoted "The x86 backend assumes at least sse2 support").
Proof.
  intros Harm Hbit. unfold get_host_target. rewrite Harm.
  change ((cpuid h 1 0).[3]) with (edx (cpuid h 1 0)).
  rewrite (bit_set_testbit _ 26) by lia. rewrite Hbit. reflexivity.
Qed.

End ProberProperties.

(** ** Module composer *)

Section ComposerProperties.
Context `{Features}.

Lemma selected_modules_not_nil (t : Target) : selected_modules t <> [].
Proof.
  unfold selected_modules.
  destruct (os t), (Arch_eqb (arch t) X86), (has_feature (features t) SSE41),
    (has_feature (features t) AVX), (has_feature (features t) CUDA),
    (has_feature (features t) OpenCL), (has_feature (features t) GPUDebug);
    discriminate.
Qed.

Lemma concat_get_initmod (l : list initmod) : List.concat (map get_initmod l) = l.
Proof.
  induction l as [ | m l IH]; simpl; [reflexivity | now rewrite IH].
Qed.

Lemma link_loop_returns link_fails (srcs : list llvm_Module) :
  forall dest m,
    link_loop link_fails dest srcs = Returns m -> m = dest ++ List.concat srcs.
Proof.
  induction srcs as [ | src srcs IH]; simpl; intros dest m E.
  - injection E as <-. now rewrite app_nil_r.
  - destruct (link_fails dest src); [discriminate | ].
    rewrite (IH _ _ E). now rewrite app_assoc.
Qed.

Lemma link_loop_no_failure link_fails (srcs : list llvm_Module) :
  (forall dest src, link_fails dest src = None) ->
  forall dest, link_loop link_fails dest srcs = Returns (dest ++ List.concat srcs).
Proof.
  intros Hok. induction srcs as [ | src srcs IH]; simpl; intros dest.
  - now rewrite app_nil_r.
  - rewrite Hok, IH. now rewrite app_assoc.
Qed.

(** What [get_initial_module_for_target] returns holds the selected
    initmods, each as often and in the order it was selected. *)
Lemma get_initial_module_returns link_fails (t : Target) (m : llvm_Module) :
  get_initial_module_for_target link_fails t = Returns m ->
  m = selected_modules t.
Proof.
  unfold get_initial_module_for_target, assert.
  destruct ((bits t =? 32) || (bits t =? 64)); simpl; [ | discriminate].
  intros E. rewrite <- (concat_get_initmod (selected_modules t)).
  destruct (map get_initmod (selected_modules t)) as [ | m0 srcs]; [discriminate | ].
  apply link_loop_returns in E. exact E.
Qed.

Lemma get_initial_module_no_failure link_fails (t : Target) :
  (forall dest src, link_fails dest src = None) ->
  bits t = 32 \/ bits t = 64 ->
  get_initial_module_for_target link_fails t = Returns (selected_modules t).
Proof.
  intros Hok Hbits. unfold get_initial_module_for_target, assert.
  replace ((bits t =? 32) || (bits t =? 64)) with true
    by (destruct Hbits as [-> | ->]; reflexivity).
  simpl. rewrite <- (concat_get_initmod (selected_modules t)) at 2.
  pose proof (selected_modules_not_nil t) as Hne.
  destruct (selected_modules t) as [ | m0 l]; [congruence | ].
  simpl. now rewrite link_loop_no_failure.
Qed.

Lemma selected_accelerator (t : Target) :
  filter is_accelerator (selected_modules t) =
    [cpp_initmod (accelerator_choice (features t)) (bits t =? 64)].
Proof.
  unfold selected_modules, accelerator_choice.
  destruct (os t), (Arch_eqb (arch t) X86), (has_feature (features t) SSE41),
    (has_feature (features t) AVX), (has_feature (features t) CUDA),
    (has_feature (features t) OpenCL), (has_feature (features t) GPUDebug);
    reflexivity.
Qed.

(** C2.  For every Target the [modules] vector of
    [get_initial_module_for_target] holds exactly one accelerator module,
    the one of [accelerator_choice] in the variant for the target's bits;
    with CUDA and OpenCL both set it is the CUDA one; whatever module the
    function returns holds exactly that one accelerator module; and it
    does return one when the target's bits are 32 or 64 and no call of the
    linker fails. *)
Theorem exactly_one_accelerator_module (t : Target) :
  filter is_accelerator (selected_modules t) =
    [cpp_initmod (accelerator_choice (features t)) (bits t =? 64)]
  /\ (has_feature (features t) CUDA = true ->
      has_feature (features t) OpenCL = true ->
      filter is_accelerator (selected_modules t) =
        [cpp_initmod
           (if has_feature (features t) GPUDebug then cuda_debug else cuda)
           (bits t =? 64)])
  /\ (forall link_fails m,
        get_initial_module_for_target link_fails t = Returns m ->
        filter is_accelerator m =
          [cpp_initmod (accelerator_choice (features t)) (bits t =? 64)])
  /\ (forall link_fails,
        bits t = 32 \/ bits t = 64 ->
        (forall dest src, link_fails dest src = None) ->
        exists m,
          get_initial_module_for_target link_fails t = Returns m /\
          filter is_accelerator m =
            [cpp_initmod (accelerator_choice (features t)) (bits t =? 64)]).
Proof.
  split; [apply selected_accelerator | split; [ | split]].
  - intros Hcuda _. rewrite selected_accelerator.
    unfold accelerator_choice. rewrite Hcuda. reflexivity.
  - intros link_fails m E. apply get_initial_module_returns in E.
    subst m. apply selected_accelerator.
  - intros link_fails Hbits Hok. exists (selected_modules t).
    split; [now apply get_initial_module_no_failure | apply selected_accelerator].
Qed.

Lemma linux_x86_64_modules_NoDup : NoDup linux_x86_64_modules.
Proof.
  unfold linux_x86_64_modules.
  repeat (constructor; [simpl; intuition discriminate | ]).
  constructor.
Qed.

(** C6.  For the Target Linux / x86 / 64 bits / no feature the [modules]
    vector is the Linux bundle, the six modules that are always used, the
    x86 low-level module and the no-GPU module, in this order and each
    once; when no call of the linker fails the function returns one module
    holding exactly these, and it never returns anything else. *)
Theorem linux_x86_64_composition :
  selected_modules linux_x86_64 = linux_x86_64_modules
  /\ NoDup (selected_modules linux_x86_64)
  /\ (forall link_fails,
        (forall dest src, link_fails dest src = None) ->
        get_initial_module_for_target link_fails linux_x86_64
          = Returns linux_x86_64_modules)
  /\ (forall link_fails m,
        get_initial_module_for_target link_fails linux_x86_64 = Returns m ->
        m = linux_x86_64_modules).
Proof.
  assert (E : selected_modules linux_x86_64 = linux_x86_64_modules) by reflexivity.
  split; [ | split; [ | split]].
  - exact E.
  - rewrite E. apply linux_x86_64_modules_NoDup.
  - intros link_fails Hok. rewrite <- E.
    apply get_initial_module_no_failure; [exact Hok | right; reflexivity].
  - intros link_fails m Hm. rewrite <- E.
    eapply get_initial_module_returns; eauto.
Qed.

End ComposerProperties.

(** ** Target resolver *)

(** *** Tokenization *)

Lemma substring_all (s : string) : substring 0 (String.length s) s = s.
Proof.
  induction s as [ | c s IH]; simpl; [reflexivity | now rewrite IH].
Qed.

Lemma segments_not_nil (s : string) : segments s <> [].
Proof.
  destruct s as [ | c s]; simpl; [discriminate | ].
  destruct (Ascii.eqb c dash); [discriminate | ].
  destruct (segments s); discriminate.
Qed.

Lemma find_None_segments (s : string) :
  find dash s = None -> segments s = [s].
Proof.
  induction s as [ | c s IH]; simpl; [reflexivity | ].
  destruct (Ascii.eqb c dash); [discriminate | ].
  destruct (find dash s); [discriminate | ].
  intros _. now rewrite IH.
Qed.

Lemma find_Some_segments (s : string) :
  forall first_dash,
    find dash s = Some first_dash ->
    segments s = substr s 0 first_dash :: segments (substr_from s (first_dash + 1))
    /\ (String.length (substr_from s (first_dash + 1)) < String.length s)%nat.
Proof.
  unfold substr, substr_from.
  induction s as [ | c s IH]; simpl; intros first_dash E; [discriminate | ].
  destruct (Ascii.eqb c dash).
  - injection E as <-. simpl. rewrite Nat.sub_0_r, substring_all. split; [reflexivity | lia].
  - destruct (find dash s) as [j | ]; [ | discriminate].
    injection E as <-. destruct (IH j eq_refl) as [Hs Hl].
    simpl. rewrite Hs. split; [reflexivity | lia].
Qed.

Lemma split_loop_segments (fuel : nat) :
  forall rest tokens,
    (String.length rest < fuel)%nat ->
    (let '(rest', tokens') := split_loop fuel rest tokens in tokens' ++ [rest'])
    = tokens ++ segments rest.
Proof.
  induction fuel as [ | fuel IH]; intros rest tokens Hlen; [lia | ].
  simpl. destruct (find dash rest) as [first_dash | ] eqn:E.
  - destruct (find_Some_segments _ _ E) as [Hs Hl].
    rewrite IH by lia. rewrite Hs, <- app_assoc. reflexivity.
  - now rewrite find_None_segments.
Qed.

(** The loop of the source ends on its own condition, and the tokens are
    the segments between the hyphens, empty ones included. *)
Lemma tokenize_segments (target : string) : tokenize target = segments target.
Proof.
  unfold tokenize.
  apply (split_loop_segments (S (String.length target)) target []). lia.
Qed.

Lemma segments_app_dash (a b : string) :
  segments (a ++ String dash b) = segments a ++ segments b.
Proof.
  induction a as [ | c a IH]; simpl.
  - reflexivity.
  - rewrite IH. destruct (Ascii.eqb c dash); [reflexivity | ].
    pose proof (segments_not_nil a) as Hne.
    destruct (segments a); [congruence | reflexivity].
Qed.

Lemma tokenize_double_dash (a b : string) : In "" (tokenize (a ++ "--" ++ b)).
Proof.
  rewrite tokenize_segments.
  change (a ++ "--" ++ b)%string with (a ++ String dash (String dash b))%string.
  rewrite segments_app_dash. apply in_or_app. right.
  change (String dash b) with ("" ++ String dash b)%string.
  rewrite segments_app_dash. left. reflexivity.
Qed.

Lemma tokenize_trailing_dash (a : string) : In "" (tokenize (a ++ "-")).
Proof.
  rewrite tokenize_segments.
  change (a ++ "-")%string with (a ++ String dash "")%string.
  rewrite segments_app_dash. apply in_or_app. right. left. reflexivity.
Qed.

(** *** The token loop *)

Lemma category_eqb_spec (a b : category) : reflect (a = b) (category_eqb a b).
Proof.
  destruct a, b; simpl; constructor; congruence.
Qed.

Lemma existsb_category_In (c : category) (cs : list category) :
  existsb (category_eqb c) cs = true <-> In c cs.
Proof.
  rewrite existsb_exists. split.
  - intros (x & Hx & E). destruct (category_eqb_spec c x); congruence.
  - intros Hin. exists c. split; [exact Hin | ]. destruct c; reflexivity.
Qed.

Lemma recognised_In (tok : string) :
  recognised tok = true -> In tok token_table.
Proof.
  unfold recognised, mem. rewrite existsb_exists.
  intros (x & Hx & E). apply String.eqb_eq in E. congruence.
Qed.

Section TokenLoop.
Context `{Features}.
Variable target : string.

Lemma token_step_unrecognised (st : parse_state) (tok : string) :
  recognised tok = false ->
  category_of tok = None /\
  token_step target st tok = Aborts (did_not_understand target) "false".
Proof.
  intros Hr. cbv [recognised mem token_table arch_tokens bits_tokens os_tokens
                  feature_tokens app existsb] in Hr.
  repeat (apply orb_false_elim in Hr; destruct Hr as [? Hr]).
  cbv [category_of mem arch_tokens bits_tokens os_tokens existsb
       token_step match_token].
  repeat match goal with
         | E : String.eqb tok _ = false |- _ => rewrite E; clear E
         end.
  split; reflexivity.
Qed.

(** One turn on a recognised token: a token of a category that is already
    specified fails the assertion of the category; any other goes on, and
    marks its category when it has one. *)
Lemma token_step_recognised (st : parse_state) (tok : string) :
  recognised tok = true ->
  match category_of tok with
  | Some c =>
      if specified st c then token_step target st tok = Aborts "" (twice c)
      else exists st', token_step target st tok = Returns st' /\
                       forall c', specified st' c' = category_eqb c' c || specified st c'
  | None =>
      exists st', token_step target st tok = Returns st' /\
                  forall c', specified st' c' = specified st c'
  end.
Proof.
  intros Hr. apply recognised_In in Hr.
  destruct st as [t os_s arch_s bits_s].
  cbv [token_table arch_tokens bits_tokens os_tokens feature_tokens app In] in Hr.
  repeat (destruct Hr as [Hr | Hr]; [subst tok | ]); [ .. | contradiction];
    cbn; destruct os_s, arch_s, bits_s; cbn;
    try reflexivity;
    (eexists; split; [reflexivity | intros []; reflexivity]).
Qed.

Lemma token_loop_app (pre rest : list string) :
  forall st,
    token_loop target st (pre ++ rest) =
    (st' <- token_loop target st pre ;; token_loop target st' rest).
Proof.
  induction pre as [ | tok pre IH]; intros st; simpl; [reflexivity | ].
  destruct (token_step target st tok); simpl; [apply IH | reflexivity].
Qed.

(** A prefix of recognised tokens with no category twice, none of them
    specified before, is passed; what is specified afterwards is what was
    before and the categories of the prefix. *)
Lemma token_loop_clean (pre : list string) :
  forall st,
    forallb recognised pre = true ->
    distinct (categories pre) = true ->
    (forall c, In c (categories pre) -> specified st c = false) ->
    exists st', token_loop target st pre = Returns st' /\
                forall c, specified st' c =
                          specified st c || existsb (category_eqb c) (categories pre).
Proof.
  induction pre as [ | tok pre IH]; intros st Hrec Hdis Hnew.
  - exists st. split; [reflexivity | ]. intros c. simpl. now rewrite orb_false_r.
  - simpl in Hrec. apply andb_true_iff in Hrec as [Hr Hrec].
    pose proof (token_step_recognised st tok Hr) as Hstep.
    unfold categories in Hdis, Hnew |- *. simpl in Hdis, Hnew |- *.
    fold (categories pre) in Hdis, Hnew |- *.
    destruct (category_of tok) as [c0 | ].
    + simpl in Hdis, Hnew. apply andb_true_iff in Hdis as [Hfresh Hdis].
      apply negb_true_iff in Hfresh.
      rewrite (Hnew c0) in Hstep by (left; reflexivity).
      destruct Hstep as (st1 & E1 & Hs1). rewrite E1. simpl.
      destruct (IH st1 Hrec Hdis) as (st' & E' & Hs').
      * intros c Hin. rewrite Hs1, (Hnew c) by (right; exact Hin).
        destruct (category_eqb_spec c c0) as [-> | ]; [ | reflexivity].
        apply existsb_category_In in Hin. congruence.
      * exists st'. split; [exact E' | ]. intros c.
        rewrite Hs', Hs1. simpl.
        destruct (category_eqb c c0), (specified st c); reflexivity.
    + destruct Hstep as (st1 & E1 & Hs1). rewrite E1. simpl.
      destruct (IH st1 Hrec Hdis) as (st' & E' & Hs').
      * intros c Hin. rewrite Hs1. apply Hnew. exact Hin.
      * exists st'. split; [exact E' | ]. intros c. now rewrite Hs', Hs1.
Qed.

(** The loop is passed by such lists only. *)
Lemma token_loop_returns (tokens : list string) :
  forall st st',
    token_loop target st tokens = Returns st' ->
    forallb recognised tokens = true /\
    distinct (categories tokens) = true /\
    (forall c, In c (categories tokens) -> specified st c = false).
Proof.
  induction tokens as [ | tok tokens IH]; intros st st' E.
  - repeat split. intros c [].
  - simpl in E.
    destruct (recognised tok) eqn:Hr.
    2:{ destruct (token_step_unrecognised st tok Hr) as [_ Ha].
        rewrite Ha in E. discriminate. }
    pose proof (token_step_recognised st tok Hr) as Hstep.
    unfold categories. simpl. fold (categories tokens). rewrite Hr. simpl.
    destruct (category_of tok) as [c0 | ].
    + destruct (specified st c0) eqn:Hc0.
      { rewrite Hstep in E. discriminate. }
      destruct Hstep as (st1 & E1 & Hs1). rewrite E1 in E. simpl in E.
      destruct (IH _ _ E) as (Hrec & Hdis & Hnew).
      assert (Hfresh : existsb (category_eqb c0) (categories tokens) = false).
      { destruct (existsb (category_eqb c0) (categories tokens)) eqn:Hex;
          [ | reflexivity].
        apply existsb_category_In in Hex. apply Hnew in Hex.
        rewrite Hs1 in Hex. destruct c0; discriminate. }
      simpl. rewrite Hfresh. repeat split; try assumption.
      intros c [<- | Hin]; [exact Hc0 | ].
      apply Hnew in Hin. rewrite Hs1 in Hin.
      apply orb_false_elim in Hin. tauto.
    + destruct Hstep as (st1 & E1 & Hs1). rewrite E1 in E. simpl in E.
      destruct (IH _ _ E) as (Hrec & Hdis & Hnew).
      simpl. repeat split; try assumption.
      intros c Hin. rewrite <- Hs1. now apply Hnew.
Qed.

End TokenLoop.

(** *** Lists of tokens *)

Lemma take_while_forallb {A : Type} (p : A -> bool) (l : list A) :
  forallb p (take_while p l) = true.
Proof.
  induction l as [ | x l IH]; simpl; [reflexivity | ].
  destruct (p x) eqn:E; simpl; [now rewrite E | reflexivity].
Qed.

Lemma take_while_rest {A : Type} (p : A -> bool) (l : list A) :
  exists rest, l = take_while p l ++ rest.
Proof.
  induction l as [ | x l [rest IH]]; simpl.
  - exists []. reflexivity.
  - destruct (p x).
    + exists rest. simpl. now rewrite <- IH.
    + exists (x :: l). reflexivity.
Qed.

Lemma take_while_stops {A : Type} (p : A -> bool) (l : list A) (x : A) :
  In x l -> p x = false ->
  exists y post, l = take_while p l ++ y :: post /\ p y = false.
Proof.
  induction l as [ | z l IH]; simpl; intros Hin Hx; [contradiction | ].
  destruct (p z) eqn:Hz.
  - destruct Hin as [-> | Hin]; [congruence | ].
    destruct (IH Hin Hx) as (y & post & E & Hy).
    exists y, post. split; [simpl; now rewrite <- E | exact Hy].
  - exists z, l. split; [reflexivity | exact Hz].
Qed.

Lemma categories_app (l1 l2 : list string) :
  categories (l1 ++ l2) = categories l1 ++ categories l2.
Proof.
  apply flat_map_app.
Qed.

Lemma categories_cons (tok : string) (l : list string) :
  categories (tok :: l) =
  match category_of tok with Some c => [c] | None => [] end ++ categories l.
Proof.
  reflexivity.
Qed.

Lemma count_category_app (c : category) (l1 l2 : list string) :
  count_category c (l1 ++ l2) = (count_category c l1 + count_category c l2)%nat.
Proof.
  unfold count_category. now rewrite categories_app, filter_app, length_app.
Qed.

Lemma count_category_In (c : category) (l : list string) :
  In c (categories l) -> (1 <= count_category c l)%nat.
Proof.
  unfold count_category. induction (categories l) as [ | c1 cs IH]; simpl.
  - contradiction.
  - intros [-> | Hin].
    + destruct (category_eqb_spec c c); [simpl; lia | congruence].
    + destruct (category_eqb c c1); simpl; [lia | auto].
Qed.

Lemma distinct_snoc (cs : list category) (c : category) :
  distinct (cs ++ [c]) = distinct cs && negb (existsb (category_eqb c) cs).
Proof.
  induction cs as [ | c1 cs IH]; simpl; [reflexivity | ].
  rewrite IH, existsb_app. simpl.
  replace (category_eqb c c1) with (category_eqb c1 c) by (destruct c, c1; reflexivity).
  destruct (existsb (category_eqb c1) cs), (category_eqb c1 c), (distinct cs),
    (existsb (category_eqb c) cs); reflexivity.
Qed.

Lemma distinct_count (cs : list category) (c : category) :
  distinct cs = true -> (List.length (filter (category_eqb c) cs) <= 1)%nat.
Proof.
  induction cs as [ | c1 cs IH]; simpl; intros Hd; [lia | ].
  apply andb_true_iff in Hd as [Hfresh Hd]. apply negb_true_iff in Hfresh.
  destruct (category_eqb_spec c c1) as [-> | Hne]; [ | auto].
  simpl. replace (filter (category_eqb c1) cs) with (@nil category); [simpl; lia | ].
  symmetry. clear - Hfresh. induction cs as [ | c2 cs IH]; simpl in *; [reflexivity | ].
  apply orb_false_elim in Hfresh as [E Hf]. rewrite E. auto.
Qed.

(** In a list with a category twice there is a first token that repeats
    the category of an earlier one. *)
Lemma first_repeat (l : list string) :
  distinct (categories l) = false ->
  exists pre tok post c,
    l = pre ++ tok :: post /\ distinct (categories pre) = true /\
    category_of tok = Some c /\ In c (categories pre).
Proof.
  induction l as [ | x l IH] using rev_ind; [discriminate | ].
  intros Hd. destruct (distinct (categories l)) eqn:Hl.
  - exists l, x, []. rewrite categories_app, categories_cons in Hd.
    destruct (category_of x) as [c | ].
    + exists c. simpl in Hd. rewrite distinct_snoc, Hl in Hd. simpl in Hd.
      apply negb_false_iff, existsb_category_In in Hd. auto.
    + simpl in Hd. rewrite app_nil_r in Hd. congruence.
  - destruct (IH eq_refl) as (pre & tok & post & c & E & Hpre & Hc & Hin).
    exists pre, tok, (post ++ [x]), c. subst l.
    rewrite <- app_assoc. auto.
Qed.

Lemma forallb_false_In {A : Type} (p : A -> bool) (l : list A) :
  forallb p l = false -> exists x, In x l /\ p x = false.
Proof.
  induction l as [ | y l IH]; simpl; [discriminate | ].
  destruct (p y) eqn:Hy; simpl.
  - intros E. destruct (IH E) as (x & Hin & Hx). exists x. auto.
  - intros _. exists y. auto.
Qed.

Lemma take_while_all {A : Type} (p : A -> bool) (l : list A) :
  forallb p l = true -> take_while p l = l.
Proof.
  induction l as [ | y l IH]; simpl; [reflexivity | ].
  destruct (p y); simpl; [intros E; now rewrite IH | discriminate].
Qed.

(** *** Substrings of the diagnostic *)

Lemma is_substring_prefix (sub s : string) :
  prefix sub s = true -> is_substring sub s = true.
Proof.
  intros E. destruct s; cbn [is_substring]; rewrite E; reflexivity.
Qed.

Lemma is_substring_app_r (sub a b : string) :
  is_substring sub b = true -> is_substring sub (a ++ b) = true.
Proof.
  intros E. induction a as [ | c a IH]; [exact E | ].
  cbn [append is_substring]. rewrite IH. apply orb_true_r.
Qed.

Lemma prefix_app (s r : string) : prefix s (s ++ r) = true.
Proof.
  induction s as [ | c s IH]; simpl.
  - destruct r; reflexivity.
  - destruct (ascii_dec c c); [exact IH | congruence].
Qed.

(** The diagnostic of an unrecognised token holds the whole override
    string, the expected grammar, and "host" as an arch and as an os. *)
Lemma did_not_understand_contents (s : string) :
  is_substring s (did_not_understand s) = true /\
  is_substring "Expected format is arch-os-feature1-feature2-... "
    (did_not_understand s) = true /\
  is_substring "Where arch is host," (did_not_understand s) = true /\
  is_substring "and os is host," (did_not_understand s) = true.
Proof.
  unfold did_not_understand. repeat split.
  - apply is_substring_app_r, is_substring_prefix, prefix_app.
  - do 3 apply is_substring_app_r. reflexivity.
  - do 3 apply is_substring_app_r. reflexivity.
  - do 3 apply is_substring_app_r. reflexivity.
Qed.

(** *** Whole override strings *)

Section ResolverProperties.
Context `{Features}.

(** [get_target_from_environment] is the host target when HL_TARGET is not
    set, and [target_from_string] on the host target when it is. *)
Lemma get_target_from_environment_unset (h : Host) :
  HL_TARGET h = None -> get_target_from_environment h = get_host_target h.
Proof.
  intros E. unfold get_target_from_environment. rewrite E.
  destruct (get_host_target h); reflexivity.
Qed.

Lemma get_target_from_environment_set (h : Host) (base : Target) (s : string) :
  get_host_target h = Returns base ->
  HL_TARGET h = Some s ->
  get_target_from_environment h = target_from_string base s.
Proof.
  intros Eh Es. unfold get_target_from_environment. now rewrite Eh, Es.
Qed.

Lemma target_from_string_returns (base : Target) (s : string) (t : Target) :
  target_from_string base s = Returns t ->
  forallb recognised (tokenize s) = true /\
  distinct (categories (tokenize s)) = true.
Proof.
  unfold target_from_string. intros E.
  destruct (token_loop s _ (tokenize s)) as [st | ] eqn:El; [ | discriminate].
  apply token_loop_returns in El. tauto.
Qed.

Lemma unrecognised_never_returns (base : Target) (s tok : string) :
  In tok (tokenize s) -> recognised tok = false ->
  returned (target_from_string base s) = false.
Proof.
  intros Hin Hr. destruct (target_from_string base s) as [t | ] eqn:E; [ | reflexivity].
  apply target_from_string_returns in E as [Hall _].
  rewrite forallb_forall in Hall. rewrite (Hall _ Hin) in Hr. discriminate.
Qed.

Lemma repeated_never_returns (base : Target) (s : string) (c : category) :
  (2 <= count_category c (tokenize s))%nat ->
  returned (target_from_string base s) = false.
Proof.
  intros Hc. destruct (target_from_string base s) as [t | ] eqn:E; [ | reflexivity].
  apply target_from_string_returns in E as [_ Hd].
  apply (distinct_count _ c) in Hd. unfold count_category in Hc. lia.
Qed.

(** The first fault is an unrecognised token: the diagnostic, then
    [assert(false)]. *)
Lemma first_fault_unrecognised (base : Target) (s tok : string) :
  In tok (tokenize s) -> recognised tok = false ->
  distinct (categories (recognised_prefix (tokenize s))) = true ->
  target_from_string base s = Aborts (did_not_understand s) "false".
Proof.
  intros Hin Hr Hd. unfold target_from_string, recognised_prefix in *.
  destruct (take_while_stops recognised _ _ Hin Hr) as (y & post & E & Hy).
  rewrite E at 1. rewrite token_loop_app.
  destruct (token_loop_clean s (take_while recognised (tokenize s))
              (mkState (set_features base 0) false false false))
    as (st' & E' & _).
  - apply take_while_forallb.
  - exact Hd.
  - intros []; reflexivity.
  - rewrite E'. simpl.
    destruct (token_step_unrecognised s st' y Hy) as [_ Ha]. now rewrite Ha.
Qed.

(** The first fault is a repeated category: the assertion of that
    category, and nothing on [std::cerr]. *)
Lemma first_fault_repeated (base : Target) (s : string) :
  distinct (categories (recognised_prefix (tokenize s))) = false ->
  exists c, (2 <= count_category c (tokenize s))%nat /\
            target_from_string base s = Aborts "" (twice c).
Proof.
  intros Hd. unfold target_from_string, recognised_prefix in *.
  destruct (first_repeat _ Hd) as (pre & tok & post & c & E & Hpre & Hc & Hin).
  destruct (take_while_rest recognised (tokenize s)) as [rest Er].
  pose proof (take_while_forallb recognised (tokenize s)) as Hall.
  rewrite E in Er, Hall. rewrite <- app_assoc in Er. simpl in Er.
  rewrite forallb_app in Hall. simpl in Hall.
  apply andb_true_iff in Hall as [Hall_pre Hall]. apply andb_true_iff in Hall as [Hr _].
  exists c. split.
  - rewrite Er, count_category_app.
    change (tok :: post ++ rest) with ([tok] ++ (post ++ rest)).
    rewrite count_category_app.
    apply count_category_In in Hin.
    assert (count_category c [tok] = 1%nat).
    { unfold count_category. rewrite categories_cons, Hc. simpl.
      destruct (category_eqb_spec c c); [reflexivity | congruence]. }
    lia.
  - rewrite Er, token_loop_app.
    destruct (token_loop_clean s pre (mkState (set_features base 0) false false false))
      as (st' & E' & Hs'); [exact Hall_pre | exact Hpre | intros []; reflexivity | ].
    rewrite E'. simpl.
    pose proof (token_step_recognised s st' tok Hr) as Hstep.
    apply existsb_category_In in Hin.
    rewrite Hc, Hs', Hin, orb_true_r in Hstep.
    cbn [token_loop]. now rewrite Hstep.
Qed.

(** A string with a repeated category whose recognised prefix has none
    has an unrecognised token in front of the repetition. *)
Lemma repeated_behind_unrecognised (s : string) (c : category) :
  (2 <= count_category c (tokenize s))%nat ->
  distinct (categories (recognised_prefix (tokenize s))) = true ->
  exists tok, In tok (tokenize s) /\ recognised tok = false.
Proof.
  intros Hc Hd. destruct (forallb recognised (tokenize s)) eqn:Hall.
  - unfold recognised_prefix in Hd. rewrite take_while_all in Hd by exact Hall.
    apply (distinct_count _ c) in Hd. unfold count_category in Hc. lia.
  - apply forallb_false_In. exact Hall.
Qed.

(** *** Feature flags *)

Lemma has_feature_lor (fs1 fs2 flag : Z) :
  has_feature (Z.lor fs1 fs2) flag = has_feature fs1 flag || has_feature fs2 flag.
Proof.
  unfold has_feature. rewrite Z.land_lor_distr_l.
  destruct (Z.eqb_spec (Z.land fs1 flag) 0) as [E1 | E1],
           (Z.eqb_spec (Z.land fs2 flag) 0) as [E2 | E2]; simpl.
  - rewrite E1, E2. reflexivity.
  - apply negb_true_iff, Z.eqb_neq. rewrite Z.lor_eq_0_iff. tauto.
  - apply negb_true_iff, Z.eqb_neq. rewrite Z.lor_eq_0_iff. tauto.
  - apply negb_true_iff, Z.eqb_neq. rewrite Z.lor_eq_0_iff. tauto.
Qed.

Lemma has_feature_same (flag : Z) : flag <> 0 -> has_feature flag flag = true.
Proof.
  intros Hne. unfold has_feature. rewrite Z.land_diag.
  now apply negb_true_iff, Z.eqb_neq.
Qed.

Lemma has_feature_disjoint (f g : Z) :
  Z.land f g = 0 -> has_feature f g = false /\ has_feature g f = false.
Proof.
  intros E. unfold has_feature. rewrite (Z.land_comm g f), E. split; reflexivity.
Qed.

(** Among independent flags, one flag has the bit of another only when it
    is that flag. *)
Lemma independent_flags_table :
  independent_flags = true ->
  has_feature SSE41 SSE41 = true /\ has_feature AVX SSE41 = false /\
  has_feature AVX2 SSE41 = false /\
  has_feature SSE41 AVX = false /\ has_feature AVX AVX = true /\
  has_feature AVX2 AVX = false /\
  has_feature SSE41 AVX2 = false /\ has_feature AVX AVX2 = false /\
  has_feature AVX2 AVX2 = true /\
  has_feature SSE41 CUDA = false /\ has_feature AVX CUDA = false /\
  has_feature AVX2 CUDA = false /\
  has_feature SSE41 OpenCL = false /\ has_feature AVX OpenCL = false /\
  has_feature AVX2 OpenCL = false /\
  has_feature SSE41 GPUDebug = false /\ has_feature AVX GPUDebug = false /\
  has_feature AVX2 GPUDebug = false.
Proof.
  unfold independent_flags, all_flags. cbn [forallb pairwise_disjoint].
  intros Hind.
  repeat match goal with
         | E : _ && _ = true |- _ => apply andb_true_iff in E; destruct E
         end.
  repeat match goal with
         | E : negb (_ =? 0) = true |- _ => apply negb_true_iff, Z.eqb_neq in E
         | E : (Z.land _ _ =? 0) = true |- _ =>
             apply Z.eqb_eq, has_feature_disjoint in E; destruct E
         end.
  repeat split; (assumption || (apply has_feature_same; assumption)).
Qed.

(** *** The claims on override strings *)

Lemma avx2_override_result (base : Target) :
  target_from_string base "avx2" =
    Returns (set_features base (Z.lor (Z.lor SSE41 AVX) AVX2)).
Proof.
  reflexivity.
Qed.

(** C3.  Whatever the base Target, the override "avx2" is accepted; the
    result keeps the base's os, arch and bits and its features are SSE4.1,
    AVX and AVX2 joined, whatever features the base had; with independent
    flags these three are set and CUDA, OpenCL and GPUDebug are not. *)
Theorem avx2_override_features (base : Target) :
  independent_flags = true ->
  exists t,
    target_from_string base "avx2" = Returns t /\
    os t = os base /\ arch t = arch base /\ bits t = bits base /\
    features t = Z.lor (Z.lor SSE41 AVX) AVX2 /\
    has_feature (features t) SSE41 = true /\
    has_feature (features t) AVX = true /\
    has_feature (features t) AVX2 = true /\
    has_feature (features t) CUDA = false /\
    has_feature (features t) OpenCL = false /\
    has_feature (features t) GPUDebug = false.
Proof.
  intros Hind. apply independent_flags_table in Hind.
  exists (set_features base (Z.lor (Z.lor SSE41 AVX) AVX2)).
  split; [apply avx2_override_result | ]. cbn [set_features os arch bits features].
  rewrite !has_feature_lor.
  repeat match goal with
         | E : _ /\ _ |- _ => destruct E as [? E]
         end.
  repeat match goal with
         | E : has_feature _ _ = _ |- _ => rewrite E; clear E
         end.
  repeat split.
Qed.

(** C7.  Against the same base, "sse41-avx" gives the very Target that
    "avx" gives, with SSE4.1 and AVX joined as its features; a feature
    token given twice, as in "avx-avx", is no error either. *)
Theorem sse41_avx_same_as_avx (base : Target) :
  target_from_string base "sse41-avx" = target_from_string base "avx" /\
  target_from_string base "avx" = Returns (set_features base (Z.lor SSE41 AVX)) /\
  target_from_string base "avx-avx" = target_from_string base "avx".
Proof.
  assert (E1 : target_from_string base "sse41-avx" =
               Returns (set_features base (Z.lor (Z.lor 0 SSE41) (Z.lor SSE41 AVX))))
    by reflexivity.
  assert (E2 : target_from_string base "avx" =
               Returns (set_features base (Z.lor 0 (Z.lor SSE41 AVX))))
    by reflexivity.
  assert (E3 : target_from_string base "avx-avx" =
               Returns (set_features base
                          (Z.lor (Z.lor 0 (Z.lor SSE41 AVX)) (Z.lor SSE41 AVX))))
    by reflexivity.
  rewrite E1, E2, E3. rewrite !Z.lor_0_l.
  rewrite Z.lor_assoc, !Z.lor_diag. auto.
Qed.

(** C4, amended.  An override string with an unrecognised token never
    yields a Target: the process is ended.  When no architecture, OS or
    bits token is repeated in front of the first unrecognised token, the
    end is [assert(false)] after the diagnostic, which holds the whole
    override string and the expected grammar, has been written to
    [std::cerr]; otherwise it is the assertion of a repeated category, with
    nothing written. *)
Theorem unrecognised_token_fatal (base : Target) (s tok : string) :
  In tok (tokenize s) ->
  recognised tok = false ->
  returned (target_from_string base s) = false /\
  (distinct (categories (recognised_prefix (tokenize s))) = true ->
   target_from_string base s = Aborts (did_not_understand s) "false") /\
  (distinct (categories (recognised_prefix (tokenize s))) = false ->
   exists c, (2 <= count_category c (tokenize s))%nat /\
             target_from_string base s = Aborts "" (twice c)) /\
  is_substring s (did_not_understand s) = true /\
  is_substring "Expected format is arch-os-feature1-feature2-... "
    (did_not_understand s) = true.
Proof.
  intros Hin Hr.
  destruct (did_not_understand_contents s) as (Hs & Hg & _).
  repeat split; try assumption.
  - eapply unrecognised_never_returns; eauto.
  - intros Hd. eapply first_fault_unrecognised; eauto.
  - apply first_fault_repeated.
Qed.

(** C5, amended.  An override string with more than one architecture
    token, more than one OS token or more than one bits token never yields
    a Target: the process is ended.  When a category is repeated in front
    of every unrecognised token, the end is the assertion that names a
    category given twice; otherwise an unrecognised token comes first and
    the end is the one of an unrecognised token. *)
Theorem repeated_category_fatal (base : Target) (s : string) (c : category) :
  (2 <= count_category c (tokenize s))%nat ->
  returned (target_from_string base s) = false /\
  (distinct (categories (recognised_prefix (tokenize s))) = false ->
   exists c', (2 <= count_category c' (tokenize s))%nat /\
              target_from_string base s = Aborts "" (twice c')) /\
  (distinct (categories (recognised_prefix (tokenize s))) = true ->
   target_from_string base s = Aborts (did_not_understand s) "false").
Proof.
  intros Hc. split; [ | split].
  - eapply repeated_never_returns; eauto.
  - apply first_fault_repeated.
  - intros Hd.
    destruct (repeated_behind_unrecognised s c Hc Hd) as (tok & Hin & Hr).
    eapply first_fault_unrecognised; eauto.
Qed.

(** C8, amended.  For an override string with two hyphens in a row or a
    hyphen at its end, the empty segment is one of the tokens and is not
    in the token table, so no Target is returned and the process is ended:
    as for any unrecognised token when no architecture, OS or bits token is
    repeated in front of the first unrecognised token, and on the assertion
    of a repeated category otherwise. *)
Theorem empty_segment_fatal (base : Target) (s : string) :
  (exists a b, s = a ++ "--" ++ b)%string \/ (exists a, s = a ++ "-")%string ->
  In "" (tokenize s) /\
  recognised "" = false /\
  returned (target_from_string base s) = false /\
  (distinct (categories (recognised_prefix (tokenize s))) = true ->
   target_from_string base s = Aborts (did_not_understand s) "false") /\
  (distinct (categories (recognised_prefix (tokenize s))) = false ->
   exists c, (2 <= count_category c (tokenize s))%nat /\
             target_from_string base s = Aborts "" (twice c)).
Proof.
  intros Hs.
  assert (Hin : In "" (tokenize s)).
  { destruct Hs as [(a & b & ->) | (a & ->)];
      [apply tokenize_double_dash | apply tokenize_trailing_dash]. }
  assert (Hr : recognised "" = false) by reflexivity.
  split; [exact Hin | split; [exact Hr | split; [ | split]]].
  - eapply unrecognised_never_returns; eauto.
  - intros Hd. eapply first_fault_unrecognised; eauto.
  - apply first_fault_repeated.
Qed.

(** C10, amended.  "host" is not in the token table: an override string
    with the segment "host" never yields a Target and the process is
    ended, as for any unrecognised token when no architecture, OS or bits
    token is repeated in front of the first unrecognised token, and on the
    assertion of a repeated category otherwise; yet the diagnostic of an
    unrecognised token names "host" as an arch and as an os. *)
Theorem host_token_fatal (base : Target) (s : string) :
  In "host" (tokenize s) ->
  recognised "host" = false /\
  returned (target_from_string base s) = false /\
  (distinct (categories (recognised_prefix (tokenize s))) = true ->
   target_from_string base s = Aborts (did_not_understand s) "false") /\
  (distinct (categories (recognised_prefix (tokenize s))) = false ->
   exists c, (2 <= count_category c (tokenize s))%nat /\
             target_from_string base s = Aborts "" (twice c)) /\
  is_substring "Where arch is host," (did_not_understand s) = true /\
  is_substring "and os is host," (did_not_understand s) = true.
Proof.
  intros Hin.
  assert (Hr : recognised "host" = false) by reflexivity.
  destruct (did_not_understand_contents s) as (_ & _ & Ha & Ho).
  split; [exact Hr | split; [ | split; [ | split; [ | split]]]]; try assumption.
  - eapply unrecognised_never_returns; eauto.
  - intros Hd. eapply first_fault_unrecognised; eauto.
  - apply first_fault_repeated.
Qed.

End ResolverProperties.


(** * Further properties of the code *)

(** ** Tokenization as a round trip *)

Lemma concat_dash_cons (tok : string) (tokens : list string) :
  tokens <> [] ->
  String.concat "-" (tok :: tokens)
  = (tok ++ String dash (String.concat "-" tokens))%string.
Proof.
  destruct tokens; [congruence | reflexivity].
Qed.

Lemma concat_dash_segments (s : string) : String.concat "-" (segments s) = s.
Proof.
  induction s as [ | c s IH]; [reflexivity | ].
  cbn [segments]. pose proof (segments_not_nil s) as Hne.
  destruct (Ascii.eqb_spec c dash) as [-> | Hc].
  - rewrite concat_dash_cons by exact Hne. now rewrite IH.
  - destruct (segments s) as [ | seg segs]; [congruence | ].
    destruct segs as [ | seg' segs].
    + simpl in IH |- *. now rewrite IH.
    + rewrite concat_dash_cons by discriminate.
      rewrite concat_dash_cons in IH by discriminate.
      cbn [append]. now rewrite IH.
Qed.

Lemma segments_hyphen_free (s : string) : Forall hyphen_free (segments s).
Proof.
  unfold hyphen_free.
  induction s as [ | c s IH]; cbn [segments].
  - repeat constructor.
  - destruct (Ascii.eqb c dash) eqn:Hc.
    + constructor; [reflexivity | exact IH].
    + destruct (segments s) as [ | seg segs]; [repeat constructor; simpl; now rewrite Hc | ].
      inversion IH as [ | ? ? Hseg Hsegs]; subst.
      constructor; [ | exact Hsegs]. simpl. now rewrite Hc, Hseg.
Qed.

(** X1.  Joining the tokens of an override string with hyphens gives the
    string back, and no token holds a hyphen: the splitting loop loses and
    invents nothing. *)
Theorem tokenize_join (target : string) :
  String.concat "-" (tokenize target) = target /\
  Forall hyphen_free (tokenize target) /\
  tokenize target <> [].
Proof.
  rewrite tokenize_segments.
  split; [apply concat_dash_segments | split];
    [apply segments_hyphen_free | apply segments_not_nil].
Qed.

(** X2.  Conversely, a non-empty list of tokens without hyphens, joined
    with hyphens, is split into exactly these tokens, empty ones
    included. *)
Theorem join_tokenize (tokens : list string) :
  tokens <> [] ->
  Forall hyphen_free tokens ->
  tokenize (String.concat "-" tokens) = tokens.
Proof.
  rewrite tokenize_segments. unfold hyphen_free.
  induction tokens as [ | tok tokens IH]; intros Hne Hfree; [congruence | ].
  inversion Hfree as [ | ? ? Htok Htokens]; subst.
  destruct tokens as [ | tok' tokens].
  - simpl. now apply find_None_segments.
  - rewrite concat_dash_cons by discriminate.
    rewrite segments_app_dash, IH by (auto; discriminate).
    now rewrite find_None_segments.
Qed.


(** ** What an accepted override string gives *)

(** Case analysis on the literal a token is compared with. *)
Ltac by_token tok :=
  repeat match goal with
         | |- context [String.eqb tok ?lit] =>
             destruct (String.eqb_spec tok lit) as [-> | ?]
         end.

Lemma category_of_fields (tok : string) :
  category_of tok =
  match arch_of_token tok, os_of_token tok, bits_of_token tok with
  | Some _, _, _ => Some Architecture
  | None, Some _, _ => Some OperatingSystem
  | None, None, Some _ => Some BitWidth
  | None, None, None => None
  end.
Proof.
  unfold category_of, arch_of_token, os_of_token, bits_of_token, mem,
    arch_tokens, os_tokens, bits_tokens. cbn [existsb].
  by_token tok; reflexivity.
Qed.

Lemma arch_of_token_category (tok : string) :
  arch_of_token tok = None <-> category_of tok <> Some Architecture.
Proof.
  rewrite category_of_fields.
  destruct (arch_of_token tok), (os_of_token tok), (bits_of_token tok);
    split; congruence.
Qed.

Lemma os_of_token_category (tok : string) :
  os_of_token tok = None <-> category_of tok <> Some OperatingSystem.
Proof.
  rewrite category_of_fields.
  assert (Hex : arch_of_token tok <> None -> os_of_token tok = None)
    by (unfold arch_of_token, os_of_token; by_token tok; cbn; congruence).
  destruct (arch_of_token tok), (os_of_token tok), (bits_of_token tok);
    split; try congruence.
  all: intros _; apply Hex; discriminate.
Qed.

Lemma bits_of_token_category (tok : string) :
  bits_of_token tok = None <-> category_of tok <> Some BitWidth.
Proof.
  rewrite category_of_fields.
  assert (Hex : arch_of_token tok <> None \/ os_of_token tok <> None ->
                bits_of_token tok = None)
    by (unfold arch_of_token, os_of_token, bits_of_token; by_token tok; cbn;
        intros [? | ?]; congruence).
  destruct (arch_of_token tok), (os_of_token tok), (bits_of_token tok);
    split; try congruence; intros _; apply Hex;
    ((left; discriminate) || (right; discriminate)).
Qed.

Lemma in_categories (tok : string) (c : category) (l : list string) :
  In tok l -> category_of tok = Some c -> In c (categories l).
Proof.
  intros Hin Hc. unfold categories. apply in_flat_map.
  exists tok. split; [exact Hin | ]. rewrite Hc. left. reflexivity.
Qed.

(** In a list whose categories are distinct, the token of a category is
    the only one of its category. *)
Lemma distinct_only_one (pre post : list string) (tok : string) (c : category) :
  distinct (categories (pre ++ tok :: post)) = true ->
  category_of tok = Some c ->
  forall tok', In tok' (pre ++ post) -> category_of tok' <> Some c.
Proof.
  intros Hd Hc tok' Hin Hc'.
  apply (distinct_count _ c) in Hd.
  fold (count_category c (pre ++ tok :: post)) in Hd.
  change (tok :: post) with ([tok] ++ post) in Hd.
  rewrite !count_category_app in Hd.
  assert (count_category c [tok] = 1%nat).
  { unfold count_category. rewrite categories_cons, Hc. simpl.
    destruct (category_eqb_spec c c); [reflexivity | congruence]. }
  apply in_app_or in Hin as [Hin | Hin];
    apply (in_categories _ c) in Hin; trivial;
    apply count_category_In in Hin; lia.
Qed.

Lemma some_or_none {A : Type} (f : string -> option A) (l : list string) :
  (exists tok a, In tok l /\ f tok = Some a) \/
  (forall tok, In tok l -> f tok = None).
Proof.
  induction l as [ | x l [(tok & a & Hin & E) | Hnone]].
  - right. intros tok [].
  - left. exists tok, a. split; [right; exact Hin | exact E].
  - destruct (f x) as [a | ] eqn:E.
    + left. exists x, a. split; [left; reflexivity | exact E].
    + right. intros tok [<- | Hin]; auto.
Qed.

Section OverrideResult.
Context `{Features}.

Lemma token_step_apply (target : string) (st st' : parse_state) (tok : string) :
  token_step target st tok = Returns st' ->
  st_t st' = apply_token (st_t st) tok.
Proof.
  destruct (recognised tok) eqn:Hr.
  2:{ destruct (token_step_unrecognised target st tok Hr) as [_ ->]. discriminate. }
  apply recognised_In in Hr.
  destruct st as [[o a b f] os_s arch_s bits_s].
  cbv [token_table arch_tokens bits_tokens os_tokens feature_tokens app In] in Hr.
  repeat (destruct Hr as [Hr | Hr]; [subst tok | ]); [ .. | contradiction];
    cbn; destruct os_s, arch_s, bits_s; cbn; intros E;
    try discriminate E; injection E as <-; cbn;
    unfold apply_token; cbn; rewrite ?Z.lor_0_r; reflexivity.
Qed.

Lemma token_loop_apply (target : string) (tokens : list string) :
  forall st st',
    token_loop target st tokens = Returns st' ->
    st_t st' = fold_left apply_token tokens (st_t st).
Proof.
  induction tokens as [ | tok tokens IH]; intros st st' E; simpl in E |- *.
  - now injection E as <-.
  - destruct (token_step target st tok) as [st1 | ] eqn:E1; [ | discriminate].
    simpl in E. rewrite (IH _ _ E). now rewrite (token_step_apply _ _ _ _ E1).
Qed.

(** The Target an accepted string yields, token by token. *)
Lemma target_from_string_fold (base : Target) (s : string) (t : Target) :
  target_from_string base s = Returns t ->
  t = fold_left apply_token (tokenize s) (set_features base 0).
Proof.
  unfold target_from_string.
  destruct (token_loop s _ (tokenize s)) as [st | ] eqn:E; [ | discriminate].
  simpl. intros [= <-]. now rewrite (token_loop_apply _ _ _ _ E).
Qed.

Lemma target_from_string_accepts (base : Target) (s : string) :
  forallb recognised (tokenize s) = true ->
  distinct (categories (tokenize s)) = true ->
  exists t, target_from_string base s = Returns t.
Proof.
  intros Hall Hd. unfold target_from_string.
  destruct (token_loop_clean s (tokenize s)
              (mkState (set_features base 0) false false false) Hall Hd)
    as (st' & E & _); [intros []; reflexivity | ].
  rewrite E. simpl. eauto.
Qed.

(** X3.  An override string is accepted exactly when each of its tokens is
    in the token table and no architecture, OS or bits category has two
    tokens; the base Target plays no part in it. *)
Theorem target_from_string_accepted_iff (base : Target) (s : string) :
  returned (target_from_string base s)
  = forallb recognised (tokenize s) && distinct (categories (tokenize s)).
Proof.
  destruct (target_from_string base s) as [t | cerr a] eqn:E; simpl.
  - apply target_from_string_returns in E as [-> ->]. reflexivity.
  - destruct (forallb recognised (tokenize s)) eqn:Hall; [ | reflexivity].
    destruct (distinct (categories (tokenize s))) eqn:Hd; [ | reflexivity].
    destruct (target_from_string_accepts base s Hall Hd) as [t Et]. congruence.
Qed.

(** A field that only the tokens of one category set: the fold keeps it
    when there is no such token, and takes the value of the token when
    there is one and the categories are distinct. *)
Section Field.
Variables (A : Type) (get : Target -> A) (of_token : string -> option A)
          (c : category).
Hypothesis get_apply : forall t tok,
  get (apply_token t tok) = match of_token tok with Some a => a | None => get t end.
Hypothesis of_token_category : forall tok,
  of_token tok = None <-> category_of tok <> Some c.

Lemma fold_field_kept (tokens : list string) :
  forall t,
    (forall tok, In tok tokens -> of_token tok = None) ->
    get (fold_left apply_token tokens t) = get t.
Proof.
  induction tokens as [ | tok tokens IH]; intros t Hnone; [reflexivity | ].
  simpl. rewrite IH by (intros; apply Hnone; now right).
  rewrite get_apply, (Hnone tok) by (now left). reflexivity.
Qed.

Lemma fold_field_set (tokens : list string) (t : Target) (tok : string) (a : A) :
  distinct (categories tokens) = true ->
  In tok tokens -> of_token tok = Some a ->
  get (fold_left apply_token tokens t) = a.
Proof.
  intros Hd Hin Ea.
  destruct (in_split _ _ Hin) as (pre & post & ->).
  assert (Hc : category_of tok = Some c).
  { destruct (category_of tok) as [c' | ] eqn:Ec.
    - destruct (category_eqb_spec c' c) as [-> | Hne]; [reflexivity | ].
      assert (of_token tok = None) by (apply of_token_category; congruence).
      congruence.
    - assert (of_token tok = None) by (apply of_token_category; congruence).
      congruence. }
  pose proof (distinct_only_one pre post tok c Hd Hc) as Hothers.
  rewrite fold_left_app. simpl.
  rewrite fold_field_kept.
  - now rewrite get_apply, Ea.
  - intros tok' Hin'. apply of_token_category, Hothers, in_or_app. now right.
Qed.

End Field.

Lemma fold_features (tokens : list string) :
  forall t,
    features (fold_left apply_token tokens t)
    = Z.lor (features t) (join_features tokens).
Proof.
  induction tokens as [ | tok tokens IH]; intros t; simpl.
  - now rewrite Z.lor_0_r.
  - rewrite IH. unfold apply_token at 1. cbn [features].
    now rewrite Z.lor_assoc.
Qed.

Lemma has_feature_join (tokens : list string) (flag : Z) :
  has_feature (join_features tokens) flag
  = existsb (fun tok => has_feature (features_of_token tok) flag) tokens.
Proof.
  induction tokens as [ | tok tokens IH]; simpl; [reflexivity | ].
  now rewrite has_feature_lor, IH.
Qed.

(** The fields after a fold over tokens of distinct categories. *)
Lemma fold_result_fields (tokens : list string) (t0 : Target) :
  distinct (categories tokens) = true ->
  (forall tok o, In tok tokens -> os_of_token tok = Some o ->
                 os (fold_left apply_token tokens t0) = o) /\
  ((forall tok, In tok tokens -> os_of_token tok = None) ->
   os (fold_left apply_token tokens t0) = os t0) /\
  (forall tok a, In tok tokens -> arch_of_token tok = Some a ->
                 arch (fold_left apply_token tokens t0) = a) /\
  ((forall tok, In tok tokens -> arch_of_token tok = None) ->
   arch (fold_left apply_token tokens t0) = arch t0) /\
  (forall tok b, In tok tokens -> bits_of_token tok = Some b ->
                 bits (fold_left apply_token tokens t0) = b) /\
  ((forall tok, In tok tokens -> bits_of_token tok = None) ->
   bits (fold_left apply_token tokens t0) = bits t0).
Proof.
  intros Hd. repeat split.
  - intros tok o. now apply (fold_field_set OS os os_of_token OperatingSystem
                               (fun _ _ => eq_refl) os_of_token_category).
  - intros Hn. now rewrite (fold_field_kept OS os os_of_token (fun _ _ => eq_refl)).
  - intros tok a. now apply (fold_field_set Arch arch arch_of_token Architecture
                               (fun _ _ => eq_refl) arch_of_token_category).
  - intros Hn. now rewrite (fold_field_kept Arch arch arch_of_token (fun _ _ => eq_refl)).
  - intros tok b. now apply (fold_field_set Z bits bits_of_token BitWidth
                               (fun _ _ => eq_refl) bits_of_token_category).
  - intros Hn. now rewrite (fold_field_kept Z bits bits_of_token (fun _ _ => eq_refl)).
Qed.

(** X4.  The fields of the Target an accepted override string yields: the
    OS, the architecture and the bits are the ones of the token of that
    category when the string has one and the base's otherwise; the features
    are the flags of the tokens joined, so that a flag is set exactly when
    some token sets it, whatever features the base had. *)
Theorem target_from_string_fields (base : Target) (s : string) (t : Target) :
  target_from_string base s = Returns t ->
  (forall tok o, In tok (tokenize s) -> os_of_token tok = Some o -> os t = o) /\
  ((forall tok, In tok (tokenize s) -> os_of_token tok = None) -> os t = os base) /\
  (forall tok a, In tok (tokenize s) -> arch_of_token tok = Some a -> arch t = a) /\
  ((forall tok, In tok (tokenize s) -> arch_of_token tok = None) ->
   arch t = arch base) /\
  (forall tok b, In tok (tokenize s) -> bits_of_token tok = Some b -> bits t = b) /\
  ((forall tok, In tok (tokenize s) -> bits_of_token tok = None) ->
   bits t = bits base) /\
  features t = join_features (tokenize s) /\
  (forall flag,
     has_feature (features t) flag
     = existsb (fun tok => has_feature (features_of_token tok) flag) (tokenize s)).
Proof.
  intros E. pose proof (target_from_string_returns _ _ _ E) as [_ Hd].
  apply target_from_string_fold in E. subst t.
  destruct (fold_result_fields (tokenize s) (set_features base 0) Hd)
    as (Hos & Hos' & Harch & Harch' & Hbits & Hbits').
  assert (Hf : features (fold_left apply_token (tokenize s) (set_features base 0))
               = join_features (tokenize s)) by (now rewrite fold_features).
  repeat split; try assumption.
  intros flag. now rewrite Hf, has_feature_join.
Qed.

(** Two results agree on a field when their strings have the same tokens
    and their bases agree on the field, or some token sets it. *)
Lemma field_agree {A : Type} (f : string -> option A)
      (tokens1 tokens2 : list string) (d1 d2 v1 v2 : A) :
  (forall tok, In tok tokens1 <-> In tok tokens2) ->
  (forall tok a, In tok tokens1 -> f tok = Some a -> v1 = a) ->
  ((forall tok, In tok tokens1 -> f tok = None) -> v1 = d1) ->
  (forall tok a, In tok tokens2 -> f tok = Some a -> v2 = a) ->
  ((forall tok, In tok tokens2 -> f tok = None) -> v2 = d2) ->
  ((forall tok, In tok tokens1 -> f tok = None) -> d1 = d2) ->
  v1 = v2.
Proof.
  intros Hsame Hset1 Hkept1 Hset2 Hkept2 Hbase.
  destruct (some_or_none f tokens1) as [(tok & a & Hin & E) | Hnone].
  - rewrite (Hset1 _ _ Hin E). symmetry. apply (Hset2 tok); [now apply Hsame | exact E].
  - rewrite (Hkept1 Hnone), (Hbase Hnone). symmetry. apply Hkept2.
    intros tok Hin. apply Hnone. now apply Hsame.
Qed.

Lemma same_fields (t1 t2 : Target) :
  os t1 = os t2 -> arch t1 = arch t2 -> bits t1 = bits t2 ->
  features t1 = features t2 -> t1 = t2.
Proof.
  destruct t1, t2; simpl; congruence.
Qed.

(** Folds over the same tokens, in whatever order, from bases that agree
    wherever no token sets the field. *)
Lemma fold_agree (tokens1 tokens2 : list string) (t1 t2 : Target) :
  distinct (categories tokens1) = true ->
  distinct (categories tokens2) = true ->
  (forall tok, In tok tokens1 <-> In tok tokens2) ->
  join_features tokens1 = join_features tokens2 ->
  ((forall tok, In tok tokens1 -> os_of_token tok = None) -> os t1 = os t2) ->
  ((forall tok, In tok tokens1 -> arch_of_token tok = None) -> arch t1 = arch t2) ->
  ((forall tok, In tok tokens1 -> bits_of_token tok = None) -> bits t1 = bits t2) ->
  features t1 = features t2 ->
  fold_left apply_token tokens1 t1 = fold_left apply_token tokens2 t2.
Proof.
  intros Hd1 Hd2 Hsame Hjoin Hos Harch Hbits Hfeat.
  destruct (fold_result_fields tokens1 t1 Hd1) as (Ho1 & Ho1' & Ha1 & Ha1' & Hb1 & Hb1').
  destruct (fold_result_fields tokens2 t2 Hd2) as (Ho2 & Ho2' & Ha2 & Ha2' & Hb2 & Hb2').
  apply same_fields.
  - eapply (field_agree os_of_token tokens1 tokens2); eauto.
  - eapply (field_agree arch_of_token tokens1 tokens2); eauto.
  - eapply (field_agree bits_of_token tokens1 tokens2); eauto.
  - rewrite !fold_features. congruence.
Qed.

Lemma join_features_Permutation (l1 l2 : list string) :
  Permutation l1 l2 -> join_features l1 = join_features l2.
Proof.
  induction 1 as [ | x l l' _ IH | x y l | l l' l'' _ IH1 _ IH2]; simpl.
  - reflexivity.
  - now rewrite IH.
  - rewrite !Z.lor_assoc. f_equal. apply Z.lor_comm.
  - congruence.
Qed.

Lemma categories_Permutation (l1 l2 : list string) :
  Permutation l1 l2 -> Permutation (categories l1) (categories l2).
Proof.
  induction 1 as [ | x l l' _ IH | x y l | l l' l'' _ IH1 _ IH2].
  - constructor.
  - rewrite !categories_cons. now apply Permutation_app_head.
  - rewrite !categories_cons. apply Permutation_app_swap_app.
  - now transitivity (categories l').
Qed.

Lemma distinct_NoDup (cs : list category) : distinct cs = true <-> NoDup cs.
Proof.
  induction cs as [ | c cs IH]; simpl.
  - split; [constructor | reflexivity].
  - rewrite andb_true_iff, negb_true_iff, IH. split.
    + intros [Hfresh Hnd]. constructor; [ | exact Hnd].
      intros Hin. apply existsb_category_In in Hin. congruence.
    + intros Hnd. inversion Hnd as [ | ? ? Hnotin Hnd']; subst. split; [ | exact Hnd'].
      destruct (existsb (category_eqb c) cs) eqn:E; [ | reflexivity].
      apply existsb_category_In in E. contradiction.
Qed.

(** X5.  The order of the tokens does not matter: two override strings
    with the same tokens in any order are accepted together and then give
    the same Target. *)
Theorem target_from_string_order (base : Target) (s1 s2 : string) (t : Target) :
  Permutation (tokenize s1) (tokenize s2) ->
  target_from_string base s1 = Returns t ->
  target_from_string base s2 = Returns t.
Proof.
  intros Hperm E1.
  destruct (target_from_string_returns _ _ _ E1) as [Hall1 Hd1].
  assert (Hall2 : forallb recognised (tokenize s2) = true).
  { rewrite forallb_forall in Hall1 |- *. intros tok Hin.
    apply Hall1. apply (Permutation_in tok (Permutation_sym Hperm) Hin). }
  assert (Hd2 : distinct (categories (tokenize s2)) = true).
  { apply distinct_NoDup. apply distinct_NoDup in Hd1.
    eapply Permutation_NoDup; [ | exact Hd1]. now apply categories_Permutation. }
  destruct (target_from_string_accepts base s2 Hall2 Hd2) as [t2 E2].
  rewrite E2. f_equal.
  apply target_from_string_fold in E1, E2. subst t t2. symmetry.
  apply fold_agree; auto.
  - intros tok. split; apply Permutation_in;
      [exact Hperm | exact (Permutation_sym Hperm)].
  - now apply join_features_Permutation.
Qed.

(** X6.  Resolution is idempotent: overriding the Target that a string
    gave with the same string gives that Target again. *)
Theorem target_from_string_idempotent (base : Target) (s : string) (t : Target) :
  target_from_string base s = Returns t ->
  target_from_string t s = Returns t.
Proof.
  intros E.
  destruct (target_from_string_returns _ _ _ E) as [Hall Hd].
  destruct (target_from_string_accepts t s Hall Hd) as [t' E'].
  rewrite E'. f_equal.
  pose proof (target_from_string_fold _ _ _ E) as Ht.
  apply target_from_string_fold in E'. rewrite E'.
  transitivity (fold_left apply_token (tokenize s) (set_features base 0));
    [ | now symmetry].
  destruct (fold_result_fields (tokenize s) (set_features base 0) Hd)
    as (_ & Hos & _ & Harch & _ & Hbits).
  apply fold_agree; auto; try tauto; rewrite Ht; cbn [set_features os arch bits];
    intros Hnone; [rewrite Hos | rewrite Harch | rewrite Hbits]; auto.
Qed.

Lemma count_category_exists (c : category) (l : list string) :
  (1 <= count_category c l)%nat ->
  exists tok, In tok l /\ category_of tok = Some c.
Proof.
  unfold count_category. induction l as [ | x l IH].
  - simpl. lia.
  - rewrite categories_cons. destruct (category_of x) as [c' | ] eqn:Ec; simpl.
    + destruct (category_eqb_spec c c') as [<- | Hne].
      * intros _. exists x. split; [now left | exact Ec].
      * intros Hc. destruct (IH Hc) as (tok & Hin & Htok).
        exists tok. split; [now right | exact Htok].
    + intros Hc. destruct (IH Hc) as (tok & Hin & Htok).
      exists tok. split; [now right | exact Htok].
Qed.

Lemma token_step_same_flags (target : string) (st1 st2 : parse_state) (tok : string) :
  (forall c, specified st1 c = specified st2 c) ->
  match token_step target st1 tok, token_step target st2 tok with
  | Returns st1', Returns st2' => forall c, specified st1' c = specified st2' c
  | Aborts cerr1 a1, Aborts cerr2 a2 => cerr1 = cerr2 /\ a1 = a2
  | _, _ => False
  end.
Proof.
  intros Hflags. destruct (recognised tok) eqn:Hr.
  - pose proof (token_step_recognised target st1 tok Hr) as H1.
    pose proof (token_step_recognised target st2 tok Hr) as H2.
    destruct (category_of tok) as [c0 | ].
    + rewrite Hflags in H1. destruct (specified st2 c0).
      * rewrite H1, H2. split; reflexivity.
      * destruct H1 as (st1' & -> & Hs1), H2 as (st2' & -> & Hs2).
        intros c. now rewrite Hs1, Hs2, Hflags.
    + destruct H1 as (st1' & -> & Hs1), H2 as (st2' & -> & Hs2).
      intros c. now rewrite Hs1, Hs2, Hflags.
  - destruct (token_step_unrecognised target st1 tok Hr) as [_ ->].
    destruct (token_step_unrecognised target st2 tok Hr) as [_ ->].
    split; reflexivity.
Qed.

Lemma token_loop_same_flags (target : string) (tokens : list string) :
  forall st1 st2,
    (forall c, specified st1 c = specified st2 c) ->
    match token_loop target st1 tokens, token_loop target st2 tokens with
    | Returns _, Returns _ => True
    | Aborts cerr1 a1, Aborts cerr2 a2 => cerr1 = cerr2 /\ a1 = a2
    | _, _ => False
    end.
Proof.
  induction tokens as [ | tok tokens IH]; intros st1 st2 Hflags; simpl; [exact I | ].
  pose proof (token_step_same_flags target st1 st2 tok Hflags) as Hstep.
  destruct (token_step target st1 tok) as [st1' | ],
           (token_step target st2 tok) as [st2' | ]; simpl; try contradiction.
  - now apply IH.
  - exact Hstep.
Qed.

(** How a string is rejected does not depend on the base Target. *)
Lemma target_from_string_aborts_any_base (base1 base2 : Target) (s cerr a : string) :
  target_from_string base1 s = Aborts cerr a ->
  target_from_string base2 s = Aborts cerr a.
Proof.
  unfold target_from_string.
  pose proof (token_loop_same_flags s (tokenize s)
                (mkState (set_features base1 0) false false false)
                (mkState (set_features base2 0) false false false)
                (fun c => match c with
                          | Architecture | OperatingSystem | BitWidth => eq_refl
                          end)) as Hrel.
  destruct (token_loop s (mkState (set_features base1 0) false false false) (tokenize s)),
           (token_loop s (mkState (set_features base2 0) false false false) (tokenize s));
    simpl; try contradiction; try discriminate.
  destruct Hrel as [-> ->]. trivial.
Qed.

(** X7.  An override string with an architecture, an OS and a bits token
    decides the outcome alone: against any two base Targets it yields the
    same Target, or ends the process in the same way. *)
Theorem target_from_string_full_override (base1 base2 : Target) (s : string) :
  (1 <= count_category Architecture (tokenize s))%nat ->
  (1 <= count_category OperatingSystem (tokenize s))%nat ->
  (1 <= count_category BitWidth (tokenize s))%nat ->
  target_from_string base1 s = target_from_string base2 s.
Proof.
  intros Harch Hos Hbits.
  destruct (target_from_string base1 s) as [t1 | cerr a] eqn:E1.
  2:{ symmetry. eapply target_from_string_aborts_any_base; eauto. }
  destruct (target_from_string_returns _ _ _ E1) as [Hall Hd].
  destruct (target_from_string_accepts base2 s Hall Hd) as [t2 E2].
  rewrite E2. f_equal.
  apply target_from_string_fold in E1, E2. subst t1 t2.
  apply count_category_exists in Harch as (ta & Hina & Hca).
  apply count_category_exists in Hos as (to & Hino & Hco).
  apply count_category_exists in Hbits as (tb & Hinb & Hcb).
  apply fold_agree; auto; try tauto; intros Hnone; exfalso.
  - apply (proj1 (os_of_token_category to)); [now apply Hnone | exact Hco].
  - apply (proj1 (arch_of_token_category ta)); [now apply Hnone | exact Hca].
  - apply (proj1 (bits_of_token_category tb)); [now apply Hnone | exact Hcb].
Qed.

Lemma fold_bits (tokens : list string) (t0 : Target) :
  distinct (categories tokens) = true ->
  bits t0 = 32 \/ bits t0 = 64 ->
  bits (fold_left apply_token tokens t0) = 32 \/
  bits (fold_left apply_token tokens t0) = 64.
Proof.
  intros Hd Hbase.
  destruct (fold_result_fields tokens t0 Hd) as (_ & _ & _ & _ & Hset & Hkept).
  destruct (some_or_none bits_of_token tokens) as [(tok & b & Hin & Eb) | Hnone].
  - rewrite (Hset _ _ Hin Eb). revert Eb. unfold bits_of_token.
    by_token tok; cbn; intros [= <-]; auto.
  - rewrite (Hkept Hnone). exact Hbase.
Qed.

(** X8.  An override keeps the bits well-formed: when the base has 32 or
    64 bits, so has every Target an override string yields. *)
Theorem target_from_string_bits (base : Target) (s : string) (t : Target) :
  bits base = 32 \/ bits base = 64 ->
  target_from_string base s = Returns t ->
  bits t = 32 \/ bits t = 64.
Proof.
  intros Hbase E.
  destruct (target_from_string_returns _ _ _ E) as [_ Hd].
  apply target_from_string_fold in E. subst t.
  now apply fold_bits.
Qed.

Lemma independent_flags_accelerators :
  independent_flags = true ->
  has_feature CUDA SSE41 = false /\ has_feature CUDA AVX = false /\
  has_feature CUDA AVX2 = false /\
  has_feature OpenCL SSE41 = false /\ has_feature OpenCL AVX = false /\
  has_feature OpenCL AVX2 = false /\
  has_feature GPUDebug SSE41 = false /\ has_feature GPUDebug AVX = false /\
  has_feature GPUDebug AVX2 = false.
Proof.
  unfold independent_flags, all_flags. cbn [forallb pairwise_disjoint].
  intros Hind.
  repeat match goal with
         | E : _ && _ = true |- _ => apply andb_true_iff in E; destruct E
         end.
  repeat match goal with
         | E : (Z.land _ _ =? 0) = true |- _ =>
             apply Z.eqb_eq, has_feature_disjoint in E; destruct E
         end.
  repeat split; assumption.
Qed.

(** With independent flags, a token that sets AVX2 sets AVX, and one that
    sets AVX sets SSE4.1. *)
Lemma features_of_token_cascade (tok : string) :
  independent_flags = true ->
  (has_feature (features_of_token tok) AVX2 = true ->
   has_feature (features_of_token tok) AVX = true) /\
  (has_feature (features_of_token tok) AVX = true ->
   has_feature (features_of_token tok) SSE41 = true).
Proof.
  intros Hind.
  pose proof (independent_flags_table Hind) as Ht.
  pose proof (independent_flags_accelerators Hind) as Ha.
  repeat match goal with
         | E : _ /\ _ |- _ => destruct E
         end.
  unfold features_of_token.
  repeat match goal with
         | |- context [if ?b then _ else _] => destruct b
         end;
    rewrite ?has_feature_lor;
    repeat match goal with
           | E : has_feature _ _ = _ |- _ => rewrite E; clear E
           end;
    cbn; split; congruence.
Qed.

(** X9.  The cascade: with independent flags, in every Target an override
    string yields AVX2 comes with AVX and AVX with SSE4.1. *)
Theorem target_from_string_cascade (base : Target) (s : string) (t : Target) :
  independent_flags = true ->
  target_from_string base s = Returns t ->
  (has_feature (features t) AVX2 = true -> has_feature (features t) AVX = true) /\
  (has_feature (features t) AVX = true -> has_feature (features t) SSE41 = true).
Proof.
  intros Hind E. apply target_from_string_fold in E. subst t.
  rewrite fold_features. cbn [set_features features]. rewrite Z.lor_0_l.
  rewrite !has_feature_join.
  split; intros Hex; apply existsb_exists in Hex as (tok & Hin & Htok);
    apply existsb_exists; exists tok; (split; [exact Hin | ]);
    now apply (features_of_token_cascade tok Hind).
Qed.

(** X10.  An override string that is empty or begins with a hyphen has
    the empty token, which is in no table: HL_TARGET set to such a string
    never yields a Target. *)
Theorem empty_or_leading_hyphen_fatal (base : Target) (s : string) :
  s = "" \/ (exists rest, s = "-" ++ rest)%string ->
  In "" (tokenize s) /\ returned (target_from_string base s) = false.
Proof.
  intros Hs.
  assert (Hin : In "" (tokenize s)).
  { rewrite tokenize_segments.
    destruct Hs as [-> | (rest & ->)]; left; reflexivity. }
  split; [exact Hin | ].
  eapply unrecognised_never_returns; [exact Hin | reflexivity].
Qed.

End OverrideResult.

(** ** The host target *)

Section HostProperties.
Context `{Features}.

Lemma get_host_target_x86 (h : Host) :
  defined_arm h = false ->
  get_host_target h =
    if Z.testbit (edx (cpuid h 1 0)) 26 then
      Returns
        (mkTarget
           (if defined_APPLE h then OSX
            else if defined_MSC_VER h then Windows
            else if defined_linux h then Linux else OSUnknown)
           X86
           (if sizeof_size_t h =? 8 then 64 else 32)
           (let c := ecx (cpuid h 1 0) in
            let f := if Z.testbit c 19 then Z.lor 0 SSE41 else 0 in
            let f := if Z.testbit c 28 then Z.lor f AVX else f in
            if (sizeof_size_t h =? 8) && Z.testbit c 28 && Z.testbit c 29
               && Z.testbit c 30 && Z.testbit c 5
            then Z.lor f AVX2 else f))
    else Aborts "" ("have_sse2 && "
                    ++ quoted "The x86 backend assumes at least sse2 support").
Proof.
  intros Harm. unfold get_host_target. rewrite Harm.
  change ((cpuid h 1 0).[3]) with (edx (cpuid h 1 0)).
  change ((cpuid h 1 0).[2]) with (ecx (cpuid h 1 0)).
  rewrite !bit_set_testbit by lia.
  destruct (Z.testbit (edx (cpuid h 1 0)) 26); [ | reflexivity].
  destruct (defined_linux h), (defined_MSC_VER h), (defined_APPLE h),
    (sizeof_size_t h =? 8), (Z.testbit (ecx (cpuid h 1 0)) 19),
    (Z.testbit (ecx (cpuid h 1 0)) 28), (Z.testbit (ecx (cpuid h 1 0)) 29),
    (Z.testbit (ecx (cpuid h 1 0)) 30), (Z.testbit (ecx (cpuid h 1 0)) 5);
    reflexivity.
Qed.

Lemma get_host_target_arm (h : Host) :
  defined_arm h = true ->
  get_host_target h =
    Returns
      (mkTarget
         (if defined_APPLE h then OSX
          else if defined_MSC_VER h then Windows
          else if defined_linux h then Linux else OSUnknown)
         ARM (if sizeof_size_t h =? 8 then 64 else 32) 0).
Proof.
  intros Harm. unfold get_host_target. rewrite Harm.
  destruct (defined_linux h), (defined_MSC_VER h), (defined_APPLE h); reflexivity.
Qed.

(** X11.  [get_host_target] returns exactly on an ARM build and on an x86
    machine whose leaf-1 query has bit 26 of register D set. *)
Theorem get_host_target_returns_iff (h : Host) :
  returned (get_host_target h)
  = defined_arm h || Z.testbit (edx (cpuid h 1 0)) 26.
Proof.
  destruct (defined_arm h) eqn:Harm.
  - now rewrite get_host_target_arm.
  - rewrite get_host_target_x86 by exact Harm.
    destruct (Z.testbit (edx (cpuid h 1 0)) 26); reflexivity.
Qed.

(** X12.  Every Target [get_host_target] returns is well-formed: its bits
    are 64 when [sizeof(size_t)] is 8 and 32 otherwise; its architecture is
    ARM on an ARM build and x86 otherwise; its OS is OS X, Windows, Linux
    or unknown (never Android, iOS or NaCl); and on an ARM build it has no
    feature. *)
Theorem get_host_target_well_formed (h : Host) (t : Target) :
  get_host_target h = Returns t ->
  bits t = (if sizeof_size_t h =? 8 then 64 else 32) /\
  (bits t = 32 \/ bits t = 64) /\
  arch t = (if defined_arm h then ARM else X86) /\
  os t = (if defined_APPLE h then OSX
          else if defined_MSC_VER h then Windows
          else if defined_linux h then Linux else OSUnknown) /\
  os t <> Android /\ os t <> IOS /\ os t <> NaCl /\
  (defined_arm h = true -> features t = 0).
Proof.
  intros E.
  assert (Hshape :
    bits t = (if sizeof_size_t h =? 8 then 64 else 32) /\
    arch t = (if defined_arm h then ARM else X86) /\
    os t = (if defined_APPLE h then OSX
            else if defined_MSC_VER h then Windows
            else if defined_linux h then Linux else OSUnknown) /\
    (defined_arm h = true -> features t = 0)).
  { destruct (defined_arm h) eqn:Harm.
    - rewrite get_host_target_arm in E by exact Harm. injection E as <-.
      repeat split.
    - rewrite get_host_target_x86 in E by exact Harm.
      destruct (Z.testbit (edx (cpuid h 1 0)) 26); [ | discriminate].
      injection E as <-. repeat split. discriminate. }
  destruct Hshape as (Hb & Ha & Ho & Hf).
  repeat split; try assumption.
  - rewrite Hb. destruct (sizeof_size_t h =? 8); auto.
  - rewrite Ho. destruct (defined_APPLE h), (defined_MSC_VER h), (defined_linux h);
      discriminate.
  - rewrite Ho. destruct (defined_APPLE h), (defined_MSC_VER h), (defined_linux h);
      discriminate.
  - rewrite Ho. destruct (defined_APPLE h), (defined_MSC_VER h), (defined_linux h);
      discriminate.
Qed.

(** X13.  The features of an x86 host, with independent flags: SSE4.1 is
    bit 19 and AVX bit 28 of register C of the leaf-1 query; AVX2 is set
    exactly when [sizeof(size_t)] is 8 and bits 28, 29, 30 and 5 of that
    same register are set, so it never comes without AVX nor on a 32-bit
    build; CUDA, OpenCL and GPUDebug are never set by the host. *)
Theorem get_host_target_features (h : Host) (t : Target) :
  independent_flags = true ->
  defined_arm h = false ->
  get_host_target h = Returns t ->
  let c := ecx (cpuid h 1 0) in
  has_feature (features t) SSE41 = Z.testbit c 19 /\
  has_feature (features t) AVX = Z.testbit c 28 /\
  has_feature (features t) AVX2
  = (sizeof_size_t h =? 8) && Z.testbit c 28 && Z.testbit c 29
    && Z.testbit c 30 && Z.testbit c 5 /\
  has_feature (features t) CUDA = false /\
  has_feature (features t) OpenCL = false /\
  has_feature (features t) GPUDebug = false.
Proof.
  intros Hind Harm E.
  rewrite get_host_target_x86 in E by exact Harm.
  destruct (Z.testbit (edx (cpuid h 1 0)) 26); [ | discriminate].
  apply independent_flags_table in Hind.
  destruct Hind as (? & ? & ? & ? & ? & ? & ? & ? & ? & ? & ? & ? & ? & ? & ? & ? & ? & ?).
  cbv zeta in E |- *. revert E.
  destruct (sizeof_size_t h =? 8), (Z.testbit (ecx (cpuid h 1 0)) 19),
    (Z.testbit (ecx (cpuid h 1 0)) 28), (Z.testbit (ecx (cpuid h 1 0)) 29),
    (Z.testbit (ecx (cpuid h 1 0)) 30), (Z.testbit (ecx (cpuid h 1 0)) 5);
    cbn [andb]; intros [= <-]; cbn [features]; rewrite ?has_feature_lor;
    repeat match goal with
           | E : has_feature _ _ = _ |- _ => rewrite E; clear E
           end;
    repeat split.
Qed.

End HostProperties.


(** ** From the environment to the composer *)

Section EnvironmentProperties.
Context `{Features}.

Lemma get_host_target_bits (h : Host) (t : Target) :
  get_host_target h = Returns t -> bits t = 32 \/ bits t = 64.
Proof.
  destruct (defined_arm h) eqn:Harm.
  - rewrite get_host_target_arm by exact Harm. intros [= <-]. simpl.
    destruct (sizeof_size_t h =? 8); auto.
  - rewrite get_host_target_x86 by exact Harm.
    destruct (Z.testbit (edx (cpuid h 1 0)) 26); [ | discriminate].
    intros [= <-]. simpl. destruct (sizeof_size_t h =? 8); auto.
Qed.

(** X14.  Whatever HL_TARGET holds, a Target that
    [get_target_from_environment] returns has 32 or 64 bits, so
    [get_initial_module_for_target] never fails its bits assertion on it:
    with a linker that reports no failure it returns the module of the
    selected initmods. *)
Theorem get_target_from_environment_composes (h : Host) (t : Target) :
  get_target_from_environment h = Returns t ->
  (bits t = 32 \/ bits t = 64) /\
  (forall link_fails,
     (forall dest src, link_fails dest src = None) ->
     get_initial_module_for_target link_fails t = Returns (selected_modules t)).
Proof.
  intros E.
  assert (Hbits : bits t = 32 \/ bits t = 64).
  { unfold get_target_from_environment in E.
    destruct (get_host_target h) as [t0 | ] eqn:Eh; [ | discriminate].
    apply get_host_target_bits in Eh. simpl in E.
    destruct (HL_TARGET h) as [s | ].
    - destruct (target_from_string_returns _ _ _ E) as [_ Hd].
      apply target_from_string_fold in E. subst t. now apply fold_bits.
    - now injection E as <-. }
  split; [exact Hbits | ].
  intros link_fails Hok. now apply get_initial_module_no_failure.
Qed.

(** X15.  HL_TARGET does not spare the probe: on an x86 machine without
    the SSE2 bit [get_target_from_environment] ends the process on the SSE2
    assertion whatever HL_TARGET holds, an override to another architecture
    included. *)
Theorem get_target_from_environment_requires_sse2 (h : Host) :
  defined_arm h = false ->
  Z.testbit (edx (cpuid h 1 0)) 26 = false ->
  get_target_from_environment h =
    Aborts "" ("have_sse2 && " ++ quoted "The x86 backend assumes at least sse2 support").
Proof.
  intros Harm Hbit. unfold get_target_from_environment.
  rewrite get_host_target_x86 by exact Harm. rewrite Hbit. reflexivity.
Qed.

End EnvironmentProperties.

(** ** The modules selected for a Target *)

Lemma all_different_NoDup (l : list nat) : all_different l = true -> NoDup l.
Proof.
  induction l as [ | x l IH]; simpl; intros E; constructor.
  - apply andb_true_iff in E as [E _]. apply negb_true_iff in E.
    intros Hin. assert (Hex : existsb (Nat.eqb x) l = true).
    { apply existsb_exists. exists x. split; [exact Hin | apply Nat.eqb_refl]. }
    congruence.
  - apply IH. now apply andb_true_iff in E as [_ E].
Qed.

Section SelectionProperties.
Context `{Features}.

(** The [modules] vector in parts: the OS bundle, the modules always
    used, the x86 and feature modules, the accelerator module. *)
Lemma selected_modules_parts (t : Target) :
  selected_modules t =
    os_bundle (os t) (bits t =? 64)
    ++ always_included (bits t =? 64)
    ++ (if Arch_eqb (arch t) X86 then [ll_initmod x86_ll] else [])
    ++ (if has_feature (features t) SSE41 then [ll_initmod x86_sse41_ll] else [])
    ++ (if has_feature (features t) AVX then [ll_initmod x86_avx_ll] else [])
    ++ [cpp_initmod (accelerator_choice (features t)) (bits t =? 64)].
Proof.
  unfold selected_modules, accelerator_choice.
  destruct (os t), (Arch_eqb (arch t) X86), (has_feature (features t) SSE41),
    (has_feature (features t) AVX), (has_feature (features t) CUDA),
    (has_feature (features t) OpenCL), (has_feature (features t) GPUDebug);
    reflexivity.
Qed.

(** X16.  No Target has a module linked twice: the selected initmods are
    pairwise different, whatever the OS, the architecture, the bits and
    the features. *)
Theorem selected_modules_NoDup (t : Target) : NoDup (selected_modules t).
Proof.
  apply (NoDup_map_inv initmod_index), all_different_NoDup.
  unfold selected_modules.
  destruct (os t), (Arch_eqb (arch t) X86), (has_feature (features t) SSE41),
    (has_feature (features t) AVX), (has_feature (features t) CUDA),
    (has_feature (features t) OpenCL), (has_feature (features t) GPUDebug),
    (bits t =? 64); reflexivity.
Qed.

(** X17.  The 32- and 64-bit buffers are never mixed: every C++ component
    selected for a Target is the 64-bit one when the target has 64 bits
    and the 32-bit one otherwise. *)
Theorem selected_modules_one_width (t : Target) (c : cpp_component) (b : bool) :
  In (cpp_initmod c b) (selected_modules t) -> b = (bits t =? 64).
Proof.
  assert (Hall : Forall (fun m => match m with
                                  | cpp_initmod _ b' => b' = (bits t =? 64)
                                  | ll_initmod _ => True
                                  end) (selected_modules t)).
  { unfold selected_modules.
    destruct (os t), (Arch_eqb (arch t) X86), (has_feature (features t) SSE41),
      (has_feature (features t) AVX), (has_feature (features t) CUDA),
      (has_feature (features t) OpenCL), (has_feature (features t) GPUDebug);
      repeat constructor. }
  intros Hin. rewrite Forall_forall in Hall. exact (Hall _ Hin).
Qed.

Lemma os_bundle_cpp (o : OS) (b : bool) (l : ll_component) :
  ~ In (ll_initmod l) (os_bundle o b).
Proof.
  destruct o; simpl; intuition discriminate.
Qed.

(** X18.  The low-level modules of a Target: [posix_math_ll] always;
    [x86_ll] exactly for the x86 architecture; [x86_sse41_ll] exactly when
    the SSE4.1 flag is set and [x86_avx_ll] exactly when the AVX flag is
    set, whatever the architecture; [arm_ll] and [ptx_dev_ll] for no
    Target. *)
Theorem selected_low_level_modules (t : Target) (l : ll_component) :
  In (ll_initmod l) (selected_modules t) <->
  l = posix_math_ll \/
  (l = x86_ll /\ arch t = X86) \/
  (l = x86_sse41_ll /\ has_feature (features t) SSE41 = true) \/
  (l = x86_avx_ll /\ has_feature (features t) AVX = true).
Proof.
  rewrite selected_modules_parts, !in_app_iff.
  pose proof (os_bundle_cpp (os t) (bits t =? 64) l) as Hos.
  assert (Harch : Arch_eqb (arch t) X86 = true <-> arch t = X86)
    by (destruct (arch t); simpl; split; congruence).
  destruct (Arch_eqb (arch t) X86), (has_feature (features t) SSE41),
    (has_feature (features t) AVX);
    destruct l; simpl; intuition (discriminate || congruence).
Qed.

(** X19.  The OS-dependent modules: every OS but the unknown one gets
    exactly one clock, one I/O and one thread-pool module, and the unknown
    OS none of them; a host-CPU-count module is selected for Linux,
    Android and NaCl only. *)
Theorem selected_os_modules (t : Target) :
  List.length (filter is_clock (selected_modules t))
  = (match os t with OSUnknown => 0 | _ => 1 end)%nat /\
  List.length (filter is_io (selected_modules t))
  = (match os t with OSUnknown => 0 | _ => 1 end)%nat /\
  List.length (filter is_thread_pool (selected_modules t))
  = (match os t with OSUnknown => 0 | _ => 1 end)%nat /\
  List.length (filter is_host_cpu_count (selected_modules t))
  = (match os t with Linux | Android | NaCl => 1 | _ => 0 end)%nat.
Proof.
  unfold selected_modules.
  destruct (os t), (Arch_eqb (arch t) X86), (has_feature (features t) SSE41),
    (has_feature (features t) AVX), (has_feature (features t) CUDA),
    (has_feature (features t) OpenCL), (has_feature (features t) GPUDebug);
    repeat split.
Qed.

(** X20.  Three buffers are declared and never selected: no Target gets
    [arm_ll], [ptx_dev_ll] or [osx_host_cpu_count], an ARM or an OS X
    target included. *)
Theorem never_selected_modules (t : Target) (m : initmod) :
  In m (selected_modules t) ->
  m <> ll_initmod arm_ll /\ m <> ll_initmod ptx_dev_ll /\
  forall b, m <> cpp_initmod osx_host_cpu_count b.
Proof.
  assert (Hall : Forall (fun m => m <> ll_initmod arm_ll /\
                                  m <> ll_initmod ptx_dev_ll /\
                                  forall b, m <> cpp_initmod osx_host_cpu_count b)
                        (selected_modules t)).
  { unfold selected_modules.
    destruct (os t), (Arch_eqb (arch t) X86), (has_feature (features t) SSE41),
      (has_feature (features t) AVX), (has_feature (features t) CUDA),
      (has_feature (features t) OpenCL), (has_feature (features t) GPUDebug);
      repeat (constructor; [repeat split; discriminate | ]); constructor. }
  intros Hin. rewrite Forall_forall in Hall. exact (Hall _ Hin).
Qed.

End SelectionProperties.


(** ** Linking *)

Section LinkingProperties.
Context `{Features}.
Variable link_fails : llvm_Module -> llvm_Module -> option string.

Lemma link_loop_aborts (srcs : list llvm_Module) :
  forall dest cerr a,
    link_loop link_fails dest srcs = Aborts cerr a ->
    a = "false" /\
    exists err_msg, cerr = ("Failure linking initial modules: " ++ err_msg ++ nl)%string.
Proof.
  induction srcs as [ | src srcs IH]; simpl; intros dest cerr a E; [discriminate | ].
  destruct (link_fails dest src) as [err_msg | ].
  - injection E as <- <-. split; [reflexivity | now exists err_msg].
  - eapply IH; eauto.
Qed.

(** X21.  The two ways [get_initial_module_for_target] ends the process:
    on its first assertion, with nothing written, exactly when the bits
    are neither 32 nor 64, whatever the linker would do; and otherwise
    only on [assert(false)] after the linker's message has been written
    behind "Failure linking initial modules: ". *)
Theorem get_initial_module_aborts (t : Target) :
  (bits t <> 32 /\ bits t <> 64 ->
   get_initial_module_for_target link_fails t
   = Aborts "" "t.bits == 32 || t.bits == 64") /\
  (forall cerr a,
     get_initial_module_for_target link_fails t = Aborts cerr a ->
     (bits t <> 32 /\ bits t <> 64 /\
      cerr = "" /\ a = "t.bits == 32 || t.bits == 64") \/
     ((bits t = 32 \/ bits t = 64) /\ a = "false" /\
      exists err_msg,
        cerr = ("Failure linking initial modules: " ++ err_msg ++ nl)%string)).
Proof.
  unfold get_initial_module_for_target, assert.
  destruct (Z.eqb_spec (bits t) 32) as [E32 | N32];
    destruct (Z.eqb_spec (bits t) 64) as [E64 | N64]; cbn [orb bind].
  4:{ split; [reflexivity | ]. intros cerr a [= <- <-]. left. auto. }
  all: split; [intros [? ?]; congruence | ].
  all: intros cerr a E; right; (split; [auto | ]).
  all: pose proof (selected_modules_not_nil t) as Hne.
  all: destruct (selected_modules t) as [ | m0 l]; [congruence | ].
  all: simpl in E; now apply link_loop_aborts in E.
Qed.

Lemma link_loop_first_failure (mid : list initmod) :
  forall dest m post err_msg,
    (forall mid1 m1 mid2,
       mid = mid1 ++ m1 :: mid2 -> link_fails (dest ++ mid1) [m1] = None) ->
    link_fails (dest ++ mid) [m] = Some err_msg ->
    link_loop link_fails dest (map get_initmod (mid ++ m :: post))
    = Aborts ("Failure linking initial modules: " ++ err_msg ++ nl) "false".
Proof.
  induction mid as [ | x mid IH]; intros dest m post err_msg Hok Hfail.
  - simpl. rewrite app_nil_r in Hfail. unfold get_initmod at 1. now rewrite Hfail.
  - simpl. unfold get_initmod at 1.
    pose proof (Hok [] x mid eq_refl) as Hx. rewrite app_nil_r in Hx. rewrite Hx.
    apply IH.
    + intros mid1 m1 mid2 ->. rewrite <- app_assoc. apply (Hok (x :: mid1) m1 mid2).
      reflexivity.
    + now rewrite <- app_assoc.
Qed.

(** X22.  The first failure of the linker is the one reported: when the
    modules in front of [m] have been linked without failure and linking
    [m] fails with [err_msg], the process is ended with that message, and
    the modules behind [m] play no part. *)
Theorem get_initial_module_first_failure
        (t : Target) (pre : list initmod) (m : initmod) (post : list initmod)
        (err_msg : string) :
  bits t = 32 \/ bits t = 64 ->
  selected_modules t = pre ++ m :: post ->
  pre <> [] ->
  (forall pre1 m1 pre2,
     pre = pre1 ++ m1 :: pre2 -> pre1 <> [] -> link_fails pre1 [m1] = None) ->
  link_fails pre [m] = Some err_msg ->
  get_initial_module_for_target link_fails t
  = Aborts ("Failure linking initial modules: " ++ err_msg ++ nl) "false".
Proof.
  intros Hbits Hsel Hne Hok Hfail.
  unfold get_initial_module_for_target, assert.
  replace ((bits t =? 32) || (bits t =? 64)) with true
    by (destruct Hbits as [-> | ->]; reflexivity).
  cbn [bind]. rewrite Hsel.
  destruct pre as [ | m0 mid]; [congruence | ].
  cbn [app map]. unfold get_initmod at 1.
  apply link_loop_first_failure.
  - intros mid1 m1 mid2 ->. apply (Hok (m0 :: mid1) m1 mid2); [reflexivity | discriminate].
  - exact Hfail.
Qed.

End LinkingProperties.

(** * The statements at concrete hosts, targets and override strings

    The enumerators are those of [one_bit_each]. *)

#[local] Existing Instance one_bit_each.

Lemma get_host_target_requires_sse2_witness :
  get_host_target (mkHost true false false false 8 (fun _ _ => mkInfo 0 0 0 0) None) =
    Aborts "" ("have_sse2 && " ++ quoted "The x86 backend assumes at least sse2 support").
Proof.
  apply get_host_target_requires_sse2; reflexivity.
Defined.

(** With CUDA and OpenCL both set the one accelerator module is CUDA's. *)
Lemma exactly_one_accelerator_module_witness :
  filter is_accelerator (selected_modules (mkTarget Linux X86 64 (Z.lor CUDA OpenCL)))
  = [cpp_initmod cuda true]
  /\ exists m,
       get_initial_module_for_target (fun _ _ => None)
         (mkTarget Linux X86 64 (Z.lor CUDA OpenCL)) = Returns m /\
       filter is_accelerator m = [cpp_initmod cuda true].
Proof.
  destruct (exactly_one_accelerator_module (mkTarget Linux X86 64 (Z.lor CUDA OpenCL)))
    as (_ & Hboth & _ & Hret).
  split.
  - apply Hboth; reflexivity.
  - apply (Hret (fun _ _ => None)); [right; reflexivity | reflexivity].
Defined.

(** With a linker that never fails the composition for Linux / x86 / 64
    returns the one module of the twelve initmods. *)
Lemma linux_x86_64_composition_witness :
  get_initial_module_for_target (fun _ _ => None) linux_x86_64
  = Returns linux_x86_64_modules.
Proof.
  destruct linux_x86_64_composition as (_ & _ & Hlink & _).
  apply Hlink. reflexivity.
Defined.

Lemma avx2_override_features_witness :
  independent_flags = true /\
  exists t,
    target_from_string (mkTarget Windows ARM 32 (Z.lor CUDA GPUDebug)) "avx2" = Returns t /\
    os t = Windows /\ arch t = ARM /\ bits t = 32 /\
    features t = Z.lor (Z.lor SSE41 AVX) AVX2 /\
    has_feature (features t) SSE41 = true /\
    has_feature (features t) AVX = true /\
    has_feature (features t) AVX2 = true /\
    has_feature (features t) CUDA = false /\
    has_feature (features t) OpenCL = false /\
    has_feature (features t) GPUDebug = false.
Proof.
  split; [reflexivity | ].
  apply (avx2_override_features (mkTarget Windows ARM 32 (Z.lor CUDA GPUDebug))).
  reflexivity.
Defined.

(** The specification's example of an unrecognised token. *)
Lemma unrecognised_token_fatal_witness :
  target_from_string linux_x86_64 "x86-bogus-64"
  = Aborts (did_not_understand "x86-bogus-64") "false"
  /\ is_substring "bogus" (did_not_understand "x86-bogus-64") = true
  /\ returned (target_from_string linux_x86_64 "x86-bogus-64") = false.
Proof.
  destruct (unrecognised_token_fatal linux_x86_64 "x86-bogus-64" "bogus")
    as (Hret & Hdiag & _).
  - simpl. right. left. reflexivity.
  - reflexivity.
  - split; [apply Hdiag; reflexivity | split; [reflexivity | exact Hret]].
Defined.

(** C4 as written fails: "linux-linux-bogus" has the unrecognised token
    "bogus", and the process ends on the OS assertion with nothing written
    to [std::cerr], so no diagnostic holds the override string. *)
Lemma unrecognised_token_behind_repeated_os :
  In "bogus" (tokenize "linux-linux-bogus") /\
  recognised "bogus" = false /\
  target_from_string linux_x86_64 "linux-linux-bogus" = Aborts "" os_twice /\
  ~ (exists cerr assertion,
       target_from_string linux_x86_64 "linux-linux-bogus" = Aborts cerr assertion /\
       is_substring "linux-linux-bogus" cerr = true).
Proof.
  split; [simpl; tauto | split; [reflexivity | split; [reflexivity | ]]].
  intros (cerr & assertion & E & Hsub).
  assert (Hc : cerr = "") by (vm_compute in E; congruence).
  subst cerr. discriminate Hsub.
Qed.

(** The specification's example of an OS given twice. *)
Lemma repeated_category_fatal_witness :
  (2 <= count_category OperatingSystem (tokenize "linux-windows"))%nat /\
  returned (target_from_string linux_x86_64 "linux-windows") = false /\
  exists c, (2 <= count_category c (tokenize "linux-windows"))%nat /\
            target_from_string linux_x86_64 "linux-windows" = Aborts "" (twice c).
Proof.
  assert (Hc : (2 <= count_category OperatingSystem (tokenize "linux-windows"))%nat)
    by (vm_compute; lia).
  destruct (repeated_category_fatal linux_x86_64 "linux-windows" OperatingSystem Hc)
    as (Hret & Hrep & _).
  split; [exact Hc | split; [exact Hret | apply Hrep; reflexivity]].
Defined.

(** C5 as written fails: "linux-bogus-windows" has two OS tokens, and the
    process ends on the unrecognised "bogus" in between; neither what is
    written to [std::cerr] nor the failed assertion speaks of a category
    given twice. *)
Lemma repeated_os_behind_unrecognised_token :
  (2 <= count_category OperatingSystem (tokenize "linux-bogus-windows"))%nat /\
  target_from_string linux_x86_64 "linux-bogus-windows"
    = Aborts (did_not_understand "linux-bogus-windows") "false" /\
  is_substring "twice" (did_not_understand "linux-bogus-windows") = false /\
  ~ (exists cerr c,
       target_from_string linux_x86_64 "linux-bogus-windows" = Aborts cerr (twice c)).
Proof.
  split; [vm_compute; lia | split; [reflexivity | split; [reflexivity | ]]].
  intros (cerr & c & E). destruct c; vm_compute in E; discriminate E.
Qed.

Lemma empty_segment_fatal_witness :
  In "" (tokenize "x86--64") /\
  returned (target_from_string linux_x86_64 "x86--64") = false /\
  target_from_string linux_x86_64 "x86--64"
    = Aborts (did_not_understand "x86--64") "false" /\
  target_from_string linux_x86_64 "x86-"
    = Aborts (did_not_understand "x86-") "false".
Proof.
  destruct (empty_segment_fatal linux_x86_64 "x86--64") as (Hin & _ & Hret & Hdiag & _).
  - left. exists "x86", "64". reflexivity.
  - destruct (empty_segment_fatal linux_x86_64 "x86-") as (_ & _ & _ & Hdiag' & _).
    + right. exists "x86". reflexivity.
    + split; [exact Hin | split; [exact Hret | split]].
      * apply Hdiag. reflexivity.
      * apply Hdiag'. reflexivity.
Defined.

(** C8 as written fails: "linux-linux-" ends in a hyphen, and the process
    ends on the OS assertion before the empty token is looked at. *)
Lemma trailing_hyphen_behind_repeated_os :
  (exists a, "linux-linux-" = a ++ "-")%string /\
  In "" (tokenize "linux-linux-") /\
  target_from_string linux_x86_64 "linux-linux-" = Aborts "" os_twice /\
  target_from_string linux_x86_64 "linux-linux-"
    <> Aborts (did_not_understand "linux-linux-") "false".
Proof.
  split; [exists "linux-linux"; reflexivity | ].
  split; [simpl; tauto | ].
  split; [reflexivity | ].
  intros E. vm_compute in E. discriminate E.
Qed.

Lemma host_token_fatal_witness :
  In "host" (tokenize "host-linux") /\
  returned (target_from_string linux_x86_64 "host-linux") = false /\
  target_from_string linux_x86_64 "host-linux"
    = Aborts (did_not_understand "host-linux") "false".
Proof.
  destruct (host_token_fatal linux_x86_64 "host-linux") as (_ & Hret & Hdiag & _).
  - simpl. left. reflexivity.
  - split; [simpl; left; reflexivity | split; [exact Hret | ]].
    apply Hdiag. reflexivity.
Defined.

(** C10 as written fails: "arm-arm-host" has the segment "host", and the
    process ends on the architecture assertion before "host" is looked
    at. *)
Lemma host_token_behind_repeated_arch :
  In "host" (tokenize "arm-arm-host") /\
  target_from_string linux_x86_64 "arm-arm-host" = Aborts "" arch_twice /\
  target_from_string linux_x86_64 "arm-arm-host"
    <> Aborts (did_not_understand "arm-arm-host") "false".
Proof.
  split; [simpl; tauto | ].
  split; [reflexivity | ].
  intros E. vm_compute in E. discriminate E.
Qed.


Lemma join_tokenize_witness :
  tokenize (String.concat "-" ["x86"; ""; "avx2"]) = ["x86"; ""; "avx2"].
Proof.
  apply join_tokenize.
  - discriminate.
  - repeat constructor.
Defined.


Lemma target_from_string_fields_witness :
  target_from_string (mkTarget Windows ARM 32 CUDA) "x86-64-avx-linux"
  = Returns (mkTarget Linux X86 64 (Z.lor SSE41 AVX))
  /\ has_feature (Z.lor SSE41 AVX) CUDA
     = existsb (fun tok => has_feature (features_of_token tok) CUDA)
         (tokenize "x86-64-avx-linux").
Proof.
  split; [reflexivity | ].
  apply (target_from_string_fields (mkTarget Windows ARM 32 CUDA) "x86-64-avx-linux"
           (mkTarget Linux X86 64 (Z.lor SSE41 AVX))).
  reflexivity.
Defined.

Lemma target_from_string_order_witness :
  target_from_string linux_x86_64 "linux-avx-arm"
  = Returns (mkTarget Linux ARM 64 (Z.lor SSE41 AVX)).
Proof.
  apply (target_from_string_order linux_x86_64 "avx-linux-arm" "linux-avx-arm").
  - simpl. apply perm_swap.
  - reflexivity.
Defined.

Lemma target_from_string_idempotent_witness :
  target_from_string (mkTarget Windows ARM 32 CUDA) "cuda-windows"
  = Returns (mkTarget Windows ARM 32 CUDA).
Proof.
  apply (target_from_string_idempotent (mkTarget Windows ARM 32 (Z.lor AVX OpenCL))).
  reflexivity.
Defined.

Lemma target_from_string_full_override_witness :
  target_from_string linux_x86_64 "arm-32-android-opencl"
  = target_from_string (mkTarget Windows X86 32 AVX) "arm-32-android-opencl".
Proof.
  apply target_from_string_full_override; vm_compute; lia.
Defined.

Lemma target_from_string_bits_witness :
  bits (mkTarget Linux X86 32 SSE41) = 32 \/ bits (mkTarget Linux X86 32 SSE41) = 64.
Proof.
  apply (target_from_string_bits (mkTarget Linux X86 64 AVX) "32-sse41").
  - right. reflexivity.
  - reflexivity.
Defined.

Lemma target_from_string_cascade_witness :
  (has_feature (Z.lor (Z.lor (Z.lor SSE41 AVX) AVX2) CUDA) AVX2 = true ->
   has_feature (Z.lor (Z.lor (Z.lor SSE41 AVX) AVX2) CUDA) AVX = true) /\
  (has_feature (Z.lor (Z.lor (Z.lor SSE41 AVX) AVX2) CUDA) AVX = true ->
   has_feature (Z.lor (Z.lor (Z.lor SSE41 AVX) AVX2) CUDA) SSE41 = true).
Proof.
  apply (target_from_string_cascade linux_x86_64 "avx2-cuda"
           (mkTarget Linux X86 64 (Z.lor (Z.lor (Z.lor SSE41 AVX) AVX2) CUDA))).
  - reflexivity.
  - reflexivity.
Defined.

Lemma empty_or_leading_hyphen_fatal_witness :
  In "" (tokenize "") /\ returned (target_from_string linux_x86_64 "") = false.
Proof.
  apply empty_or_leading_hyphen_fatal. left. reflexivity.
Defined.

Lemma get_host_target_well_formed_witness :
  os (mkTarget Linux X86 64 (Z.lor AVX AVX2)) <> Android.
Proof.
  apply (get_host_target_well_formed (avx_host (Z.shiftl 1 5) (mkInfo 0 0 0 0))).
  reflexivity.
Defined.

Lemma get_host_target_features_witness :
  has_feature (Z.lor AVX AVX2) AVX2
  = (8 =? 8) && Z.testbit (ecx (cpuid (avx_host (Z.shiftl 1 5) (mkInfo 0 0 0 0)) 1 0)) 28
    && Z.testbit (ecx (cpuid (avx_host (Z.shiftl 1 5) (mkInfo 0 0 0 0)) 1 0)) 29
    && Z.testbit (ecx (cpuid (avx_host (Z.shiftl 1 5) (mkInfo 0 0 0 0)) 1 0)) 30
    && Z.testbit (ecx (cpuid (avx_host (Z.shiftl 1 5) (mkInfo 0 0 0 0)) 1 0)) 5.
Proof.
  apply (get_host_target_features (avx_host (Z.shiftl 1 5) (mkInfo 0 0 0 0))
           (mkTarget Linux X86 64 (Z.lor AVX AVX2))); reflexivity.
Defined.

(** A 64-bit Linux x86 host with SSE2 and HL_TARGET=arm-32-android. *)
Lemma get_target_from_environment_composes_witness :
  get_initial_module_for_target (fun _ _ => None) (mkTarget Android ARM 32 0)
  = Returns (selected_modules (mkTarget Android ARM 32 0)).
Proof.
  apply (get_target_from_environment_composes
           (mkHost true false false false 8
                   (fun _ _ => mkInfo 0 0 0 (Z.shiftl 1 26))
                   (Some "arm-32-android"))).
  - reflexivity.
  - reflexivity.
Defined.

(** An x86 host without SSE2 and HL_TARGET=arm-32-android. *)
Lemma get_target_from_environment_requires_sse2_witness :
  get_target_from_environment
    (mkHost true false false false 8 (fun _ _ => mkInfo 0 0 0 0)
            (Some "arm-32-android"))
  = Aborts "" ("have_sse2 && " ++ quoted "The x86 backend assumes at least sse2 support").
Proof.
  apply get_target_from_environment_requires_sse2; reflexivity.
Defined.

Lemma selected_modules_one_width_witness :
  false = (bits (mkTarget Windows X86 32 0) =? 64).
Proof.
  apply (selected_modules_one_width (mkTarget Windows X86 32 0) posix_clock).
  simpl. left. reflexivity.
Defined.

Lemma never_selected_modules_witness :
  ll_initmod posix_math_ll <> ll_initmod arm_ll /\
  ll_initmod posix_math_ll <> ll_initmod ptx_dev_ll /\
  forall b, ll_initmod posix_math_ll <> cpp_initmod osx_host_cpu_count b.
Proof.
  apply (never_selected_modules (mkTarget OSX ARM 32 0)).
  simpl. tauto.
Defined.

Lemma get_initial_module_aborts_witness :
  get_initial_module_for_target (fun _ _ => None) (mkTarget Linux X86 16 0)
  = Aborts "" "t.bits == 32 || t.bits == 64".
Proof.
  apply (get_initial_module_aborts (fun _ _ => None) (mkTarget Linux X86 16 0)).
  split; discriminate.
Defined.

(** A linker that fails on the third module of Linux / x86 / 64. *)
Lemma get_initial_module_first_failure_witness :
  get_initial_module_for_target
    (fun dest _ => if (List.length dest =? 2)%nat then Some "symbol multiply defined"
                   else None)
    linux_x86_64
  = Aborts ("Failure linking initial modules: " ++ "symbol multiply defined" ++ nl)
           "false".
Proof.
  apply (get_initial_module_first_failure _ linux_x86_64
           [cpp_initmod linux_clock true; cpp_initmod posix_io true]
           (cpp_initmod linux_host_cpu_count true)
           (skipn 3 linux_x86_64_modules)).
  - right. reflexivity.
  - reflexivity.
  - discriminate.
  - intros pre1 m1 pre2 E Hne.
    destruct pre1 as [ | a [ | b pre1]]; [congruence | reflexivity | ].
    apply (f_equal (@List.length initmod)) in E. rewrite length_app in E.
    simpl in E. lia.
  - reflexivity.
Defined.
